(** * GPU water scene: the frame loop, the noise seeding and the agent

    A shallow embedding of [src/js/components/water.js] (and of the
    [fillTexture] it shares with [scene.js]).

    Conventions.
    - JavaScript numbers are modelled as real numbers: NaN and the
      infinities are not represented, and a formula says which computation
      is made, not how its result is rounded.  Where a property compares
      the results of two different computations, the arithmetic is taken
      with its rounding, in module [Rounded].
    - [three.js] is a library of the program, not part of it.  What the
      scene calls from it ([SimplexNoise], [GPUComputationRenderer], the
      renderer) enters as section variables or as small models that say
      what they are taken from.
    - Objects that the source shares by reference ([this.#sphere.position],
      the world matrices) live in a store and uniforms hold references to
      them, so that aliasing is visible. *)

From Stdlib Require Import Reals Lra Lia List.
From stdpp Require Import base list gmap strings.

Set Default Proof Using "Type".

(** ** Module constants *)

(** [const WIDTH = 128;] *)
Definition WIDTH : nat := 128.

(** [const BOUNDS = 512;] *)
Definition BOUNDS : R := 512.

(** * The noise field generator ([fillTexture]) *)

Module Noise.

Local Open Scope R_scope.

Section WithSimplex.

(** [simplex.noise]: the 2D noise function of the instance that
    [const simplex = new SimplexNoise()] builds when the module is loaded.
    The constructor is called without argument: the program hands it
    neither a seed nor a random source of its own, and what the instance
    computes is decided inside three.js.  The instance is therefore all
    that the generator takes from outside. *)
Variable simplex_noise : R -> R -> R.

(** [const waterMaxHeight = 10;] *)
Definition waterMaxHeight : R := 10.

(** The three loop variables of [noise]. *)
Record acc := Acc { multR : R; mult : R; r : R }.

(** One pass through the body of [for (let i = 0; i < 15; i++)]. *)
Definition noise_body (x y : R) (a : acc) (i : nat) : acc :=
  let r' := r a + multR a * simplex_noise (x * mult a) (y * mult a) in
  let multR' := multR a * (0.53 + 0.025 * INR i) in
  let mult' := mult a * 1.25 in
  Acc multR' mult' r'.

(** The loop run for its first [n] values of [i], from the initial
    bindings [multR = waterMaxHeight], [mult = 0.025], [r = 0]. *)
Definition noise_loop (n : nat) (x y : R) : acc :=
  fold_left (noise_body x y) (seq 0 n) (Acc waterMaxHeight 0.025 0).

(** [function noise(x, y)] *)
Definition noise (x y : R) : R := r (noise_loop 15 x y).

(** *** The octave sum, as the specification words it *)

(** Amplitude multiplier of octave [i]: starts at the maximal height and
    is multiplied by [0.53 + 0.025 * k] after octave [k]. *)
Fixpoint amplitude (i : nat) : R :=
  match i with
  | O => 10
  | S k => amplitude k * (0.53 + 0.025 * INR k)
  end.

(** Frequency multiplier of octave [i]: starts at [0.025], times [1.25]
    after each octave. *)
Fixpoint frequency (i : nat) : R :=
  match i with
  | O => 0.025
  | S k => frequency k * 1.25
  end.

Definition octave (x y : R) (i : nat) : R :=
  amplitude i * simplex_noise (x * frequency i) (y * frequency i).

Definition octave_sum (n : nat) (x y : R) : R :=
  fold_right Rplus 0 (map (octave x y) (seq 0 n)).

(** *** Writing the texture *)

(** The four stores of one cell, at offset [p] of [texture.image.data].
    The data array is the typed array that [gpuCompute.createTexture()]
    allocates: a store past its end is dropped, which is what list insert
    does.  [pixels[p + 0]] is read back for the second store; past the end
    that read has no number to give, and the store it feeds is dropped as
    well (see [write_cell_short]), so the default is never written. *)
Definition write_cell (h : R) (pixels : list R) (p : nat) : list R :=
  let pixels := <[(p + 0)%nat := h]> pixels in
  let pixels := <[(p + 1)%nat := default 0 (pixels !! (p + 0)%nat)]> pixels in
  let pixels := <[(p + 2)%nat := 0]> pixels in
  let pixels := <[(p + 3)%nat := 1]> pixels in
  pixels.

(** The grid coordinate handed to [noise]: [i * 128 / WIDTH]. *)
Definition coord (W i : nat) : R := INR i * 128 / INR W.

(** Body of the inner loop [for (let i = 0; i < WIDTH; i++)]: the state is
    the array and the running offset [p]. *)
Definition fill_cell (W j : nat) (s : list R * nat) (i : nat) : list R * nat :=
  let '(pixels, p) := s in
  let x := coord W i in
  let y := coord W j in
  (write_cell (noise x y) pixels p, (p + 4)%nat).

(** Body of the outer loop [for (let j = 0; j < WIDTH; j++)]. *)
Definition fill_row (W : nat) (s : list R * nat) (j : nat) : list R * nat :=
  fold_left (fill_cell W j) (seq 0 W) s.

(** [fillTexture] for a grid of [W] by [W] cells. *)
Definition fillTexture_w (W : nat) (pixels : list R) : list R :=
  fst (fold_left (fill_row W) (seq 0 W) (pixels, 0%nat)).

(** [fillTexture = (texture) => { ... }], on the data of the texture. *)
Definition fillTexture (pixels : list R) : list R := fillTexture_w WIDTH pixels.

(** The cell contents the loops are expected to leave, row by row. *)
Definition cell (W j i : nat) : list R :=
  let h := noise (coord W i) (coord W j) in [h; h; 0; 1].

Definition row (W j : nat) : list R := flat_map (cell W j) (seq 0 W).

Definition texels (W : nat) : list R := flat_map (row W) (seq 0 W).

End WithSimplex.

End Noise.

(** * The scene: store, uniforms, compute renderer, frame loop *)

Module Scene.

Local Open Scope R_scope.

(** ** Values of the scene graph *)

Record Vector2 := V2 { v2x : R; v2y : R }.

Record Vector3 := V3 { vx : R; vy : R; vz : R }.

(** A 4 by 4 matrix, row by row. *)
Record Matrix4 := M4 {
  n11 : R; n12 : R; n13 : R; n14 : R;
  n21 : R; n22 : R; n23 : R; n24 : R;
  n31 : R; n32 : R; n33 : R; n34 : R;
  n41 : R; n42 : R; n43 : R; n44 : R }.

Definition identity4 : Matrix4 :=
  M4 1 0 0 0
     0 1 0 0
     0 0 1 0
     0 0 0 1.

Definition det3 (a b c d e f g h i : R) : R :=
  a * (e * i - f * h) - b * (d * i - f * g) + c * (d * h - e * g).

(** Determinant, by expansion along the first row. *)
Definition determinant (m : Matrix4) : R :=
    n11 m * det3 (n22 m) (n23 m) (n24 m) (n32 m) (n33 m) (n34 m) (n42 m) (n43 m) (n44 m)
  - n12 m * det3 (n21 m) (n23 m) (n24 m) (n31 m) (n33 m) (n34 m) (n41 m) (n43 m) (n44 m)
  + n13 m * det3 (n21 m) (n22 m) (n24 m) (n31 m) (n32 m) (n34 m) (n41 m) (n42 m) (n44 m)
  - n14 m * det3 (n21 m) (n22 m) (n23 m) (n31 m) (n32 m) (n33 m) (n41 m) (n42 m) (n43 m).

(** ** World matrices *)

(** What [renderer.render(scene, camera)] does to the scene graph before it
    draws is three.js code; the part of it that the uniforms of this program
    can see is small and is written out here after the library:
    [Quaternion.setFromEuler] (order XYZ), [Matrix4.compose] and
    [Object3D.updateMatrixWorld]. *)

Record Quaternion := Quat { qx : R; qy : R; qz : R; qw : R }.

(** [Quaternion.setFromEuler], for the default order ['XYZ']. *)
Definition setFromEuler (x y z : R) : Quaternion :=
  let c1 := cos (x / 2) in
  let c2 := cos (y / 2) in
  let c3 := cos (z / 2) in
  let s1 := sin (x / 2) in
  let s2 := sin (y / 2) in
  let s3 := sin (z / 2) in
  Quat (s1 * c2 * c3 + c1 * s2 * s3)
       (c1 * s2 * c3 - s1 * c2 * s3)
       (c1 * c2 * s3 + s1 * s2 * c3)
       (c1 * c2 * c3 - s1 * s2 * s3).

(** [Matrix4.compose(position, quaternion, scale)], which
    [Object3D.updateMatrix] calls. *)
Definition compose (position : Vector3) (quaternion : Quaternion) (scale : Vector3)
  : Matrix4 :=
  let x := qx quaternion in
  let y := qy quaternion in
  let z := qz quaternion in
  let w := qw quaternion in
  let x2 := x + x in
  let y2 := y + y in
  let z2 := z + z in
  let xx := x * x2 in
  let xy := x * y2 in
  let xz := x * z2 in
  let yy := y * y2 in
  let yz := y * z2 in
  let zz := z * z2 in
  let wx := w * x2 in
  let wy := w * y2 in
  let wz := w * z2 in
  let sx := vx scale in
  let sy := vy scale in
  let sz := vz scale in
  M4 ((1 - (yy + zz)) * sx) ((xy - wz) * sy) ((xz + wy) * sz) (vx position)
     ((xy + wz) * sx) ((1 - (xx + zz)) * sy) ((yz - wx) * sz) (vy position)
     ((xz - wy) * sx) ((yz + wx) * sy) ((1 - (xx + yy)) * sz) (vz position)
     0 0 0 1.

(** [this.#plane_mesh.matrix] as the [updateMatrix()] of [setWater] leaves
    it, from [rotation.x = -Math.PI / 2] and [position.y = -BOUNDS / 16];
    [matrixAutoUpdate] is off and nothing moves the plane afterwards. *)
Definition plane_matrix : Matrix4 :=
  compose (V3 0 (- BOUNDS / 16) 0) (setFromEuler (- PI / 2) 0 0) (V3 1 1 1).

(** The sphere's local matrix for a position: the sphere is never rotated
    or scaled. *)
Definition sphere_matrix (position : Vector3) : Matrix4 :=
  compose position (Quat 0 0 0 1) (V3 1 1 1).

(** ** The store of shared objects *)

(** Objects that are reached through more than one path. *)
Inductive object :=
| OVector2 (v : Vector2)
| OVector3 (v : Vector3)
| OMatrix4 (m : Matrix4).

Definition loc := nat.

(** [this.#sphere.position] *)
Definition sphere_position : loc := 0%nat.
(** [this.#sphere.matrixWorld] *)
Definition sphere_matrixWorld : loc := 1%nat.
(** [this.#plane_mesh.matrixWorld] *)
Definition plane_matrixWorld : loc := 2%nat.
(** [this.#camera.position] *)
Definition camera_position : loc := 3%nat.
(** The [new Vector3()] that [setWater] puts under ['cameraPos']. *)
Definition water_cameraPos : loc := 4%nat.
(** The [new Vector2(10000, 10000)] that [setWater] puts under ['mousePos']. *)
Definition heightmap_mousePos : loc := 5%nat.

(** ** Uniforms *)

(** What a uniform's [value] property holds.  [VObject] is a reference into
    the store; [VTexture b] is the texture of render target [b] of the
    heightmap variable. *)
Inductive value :=
| VNull
| VNumber (x : R)
| VColor (hex : Z)
| VBackground
| VObject (l : loc)
| VTexture (b : bool).

(** The three uniform sets bound at module level: [waterUniforms],
    [agentUniforms], [heightmapUniforms]. *)
Inductive material := Water | Agent | Heightmap.

(** ** The compute renderer *)

(** Modelled from the spec: the [GPUComputationRenderer] of three.js, for
    its single variable [heightmapVariable].  Two render targets and a
    cursor; [compute] reads the current target, writes the other one, then
    flips the cursor; [getCurrentRenderTarget] is the target under the
    cursor.  The targets are created by [init()]: [has_targets] says
    whether it got that far.  When [init()] returns an error it has
    created none, and the variable is left without render targets. *)
Record gpu := Gpu {
  target0 : list R;
  target1 : list R;
  currentTextureIndex : bool;
  has_targets : bool }.

(** Modelled from the spec: the texture of one of the two targets. *)
Definition target (g : gpu) (b : bool) : list R :=
  if b then target1 g else target0 g.

(** Modelled from the spec: the result of a step replaces the content of the
    target written; the other target is not touched. *)
Definition write_target (g : gpu) (b : bool) (t : list R) : gpu :=
  if b then Gpu (target0 g) t (currentTextureIndex g) (has_targets g)
  else Gpu t (target1 g) (currentTextureIndex g) (has_targets g).

(** Modelled from the spec: "then the cursor flips". *)
Definition flip (g : gpu) : gpu :=
  Gpu (target0 g) (target1 g) (negb (currentTextureIndex g)) (has_targets g).

(** Modelled from the spec: [gpuCompute.getCurrentRenderTarget
    (heightmapVariable)], the just-computed result, named by the cursor. *)
Definition getCurrentRenderTarget (g : gpu) : bool := currentTextureIndex g.

(** ** Observable operations *)

(** The calls a frame or the setup makes, in program order. *)
Inductive event :=
| RequestAnimationFrame
| PerformanceNow (t : R)
| MoveAgent (x z : R)
| Compute (src dst : bool)
| SetUniform (m : material) (key : string) (v : value)
| CopyInto (m : material) (key : string) (v : Vector3)
| ConsoleLog (o : object)
| ConsoleError (e : string)
| Draw (water agent : option value)
| StatsUpdate
| SetLights
| SetControls
| SetAxesHelper
| SetAgent
| SetWater
| SetGround
| SetWalls
| HandleResize
| Events.

(** ** Program state *)

Record state := State {
  lastTimestamp : R;
  deltaTime : R;
  currentAngle : option R;
  objects : gmap loc object;
  waterUniforms : gmap string value;
  agentUniforms : gmap string value;
  heightmapUniforms : gmap string value;
  gpuCompute : gpu;
  trace : list event }.

Definition log (e : event) (st : state) : state :=
  State (lastTimestamp st) (deltaTime st) (currentAngle st) (objects st)
        (waterUniforms st) (agentUniforms st) (heightmapUniforms st)
        (gpuCompute st) (trace st ++ [e]).

Definition set_objects (o : gmap loc object) (st : state) : state :=
  State (lastTimestamp st) (deltaTime st) (currentAngle st) o
        (waterUniforms st) (agentUniforms st) (heightmapUniforms st)
        (gpuCompute st) (trace st).

Definition set_gpu (g : gpu) (st : state) : state :=
  State (lastTimestamp st) (deltaTime st) (currentAngle st) (objects st)
        (waterUniforms st) (agentUniforms st) (heightmapUniforms st)
        g (trace st).

Definition uniforms (m : material) (st : state) : gmap string value :=
  match m with
  | Water => waterUniforms st
  | Agent => agentUniforms st
  | Heightmap => heightmapUniforms st
  end.

Definition set_uniforms (m : material) (u : gmap string value) (st : state) : state :=
  match m with
  | Water =>
      State (lastTimestamp st) (deltaTime st) (currentAngle st) (objects st)
            u (agentUniforms st) (heightmapUniforms st) (gpuCompute st) (trace st)
  | Agent =>
      State (lastTimestamp st) (deltaTime st) (currentAngle st) (objects st)
            (waterUniforms st) u (heightmapUniforms st) (gpuCompute st) (trace st)
  | Heightmap =>
      State (lastTimestamp st) (deltaTime st) (currentAngle st) (objects st)
            (waterUniforms st) (agentUniforms st) u (gpuCompute st) (trace st)
  end.

(** ** Property accesses that can throw *)

(** [u[key].value = v]: a [TypeError] ([None]) when [u] has no [key]. *)
Definition set_value (key : string) (v : value) (u : gmap string value)
  : option (gmap string value) :=
  match u !! key with
  | Some _ => Some (<[key := v]> u)
  | None => None
  end.

(** [uniforms[key].value = v] on one of the three sets, logged. *)
Definition assign (m : material) (key : string) (v : value) (st : state)
  : option state :=
  u ← set_value key v (uniforms m st);
  Some (log (SetUniform m key v) (set_uniforms m u st)).

Definition vector3_at (l : loc) (o : gmap loc object) : option Vector3 :=
  match o !! l with
  | Some (OVector3 v) => Some v
  | _ => None
  end.

(** [uniforms[key].value.copy(src)]: the uniform must hold a vector, whose
    components are overwritten; the uniform keeps its own object. *)
Definition copy_into (m : material) (key : string) (src : loc) (st : state)
  : option state :=
  match uniforms m st !! key with
  | Some (VObject dst) =>
      _ ← vector3_at dst (objects st);
      v ← vector3_at src (objects st);
      Some (log (CopyInto m key v)
                (set_objects (<[dst := OVector3 v]> (objects st)) st))
  | _ => None
  end.

(** [console.log(o)] of a stored object. *)
Definition console_log (l : loc) (st : state) : option state :=
  o ← objects st !! l;
  Some (log (ConsoleLog o) st).

(** ** The frame *)

Section Frame.

(** The heightmap fragment shader run over a whole target: from the
    simulation uniforms and the store as they are when the pass is issued,
    and the texture it samples, to the texture it writes. *)
Variable heightmap_shader :
  gmap string value -> gmap loc object -> list R -> list R.

(** Modelled from the spec: [gpuCompute.compute()], one step of the
    double-buffered state (section 4.3).  The shader reads the target under
    the cursor, its output goes to the other target, the cursor flips.
    What three.js does besides to its own bookkeeping is not represented.
    Without render targets there is nothing to read the texture of, and the
    call throws ([None]). *)
Definition compute (st : state) : option state :=
  let g := gpuCompute st in
  if has_targets g then
    let src := currentTextureIndex g in
    let dst := negb src in
    let out := heightmap_shader (heightmapUniforms st) (objects st) (target g src) in
    Some (log (Compute src dst) (set_gpu (flip (write_target g dst out)) st))
  else None.

(** [this.currentAngle || 0]: [undefined] on the first call. *)
Definition or_zero (a : option R) : R := default 0 a.

(** [stepAgent(deltaTime)]; the argument is written [dt] here, [deltaTime]
    being the module-level binding of the same name. *)
Definition stepAgent (dt : R) (st : state) : option state :=
  let radius := BOUNDS / 4 in
  let speed := 2 * PI * radius / 2 in
  let angle := or_zero (currentAngle st) + (speed * dt) / radius in
  let x := radius * cos angle in
  let z := radius * sin angle in
  p ← vector3_at sphere_position (objects st);
  let o := <[sphere_position := OVector3 (V3 x (vy p) z)]> (objects st) in
  Some (log (MoveAgent x z)
         (State (lastTimestamp st) (deltaTime st) (Some angle) o
                (waterUniforms st) (agentUniforms st) (heightmapUniforms st)
                (gpuCompute st) (trace st))).

(** [scene.updateMatrixWorld()], which [renderer.render] runs before it
    draws: every mesh of the scene gets its world matrix rewritten in place,
    as the world matrix of the scene (the identity) times its local matrix.
    The sphere's local matrix is recomposed from its position
    ([matrixAutoUpdate] is on), the plane's is the one [setWater] left.  The
    matrix objects are the ones the uniforms refer to. *)
Definition updateMatrixWorld (o : gmap loc object) : gmap loc object :=
  let o :=
    match o !! sphere_matrixWorld, vector3_at sphere_position o with
    | Some _, Some p => <[sphere_matrixWorld := OMatrix4 (sphere_matrix p)]> o
    | _, _ => o
    end in
  match o !! plane_matrixWorld with
  | Some _ => <[plane_matrixWorld := OMatrix4 plane_matrix]> o
  | None => o
  end.

(** [renderer.render(scene, camera)]: the world matrices are brought up to
    date, then comes the draw call, with the heightmap textures the two
    materials are bound to at that moment. *)
Definition draw (st : state) : state :=
  log (Draw (waterUniforms st !! "heightmap") (agentUniforms st !! "heightmap"))
      (set_objects (updateMatrixWorld (objects st)) st).

(** [render()] *)
Definition render (st : state) : option state :=
  st ← compute st;
  st ← assign Water "heightmap" (VTexture (getCurrentRenderTarget (gpuCompute st))) st;
  st ← copy_into Water "cameraPos" camera_position st;
  st ← assign Water "agentPosition" (VObject sphere_position) st;
  st ← assign Water "tf_agent_to_world" (VObject sphere_matrixWorld) st;
  st ← assign Heightmap "agentPosition" (VObject sphere_position) st;
  st ← assign Heightmap "tf_water_to_world" (VObject plane_matrixWorld) st;
  st ← assign Agent "heightmap" (VTexture (getCurrentRenderTarget (gpuCompute st))) st;
  st ← assign Agent "tf_agent_to_world" (VObject sphere_matrixWorld) st;
  st ← console_log sphere_position st;
  st ← console_log plane_matrixWorld st;
  Some (draw st).

(** The first four lines of [animate()]: the next frame is requested, the
    clock is read ([now] is what [performance.now()] returns) and the two
    module-level bindings are updated. *)
Definition tick (now : R) (st : state) : state :=
  let st := log RequestAnimationFrame st in
  let st := log (PerformanceNow now) st in
  let currentTimestamp := now in
  let dt := (currentTimestamp - lastTimestamp st) / 1000 in
  State currentTimestamp dt (currentAngle st) (objects st)
        (waterUniforms st) (agentUniforms st) (heightmapUniforms st)
        (gpuCompute st) (trace st).

(** [animate()] *)
Definition animate (now : R) (st : state) : option state :=
  let st := tick now st in
  st ← stepAgent (deltaTime st) st;
  st ← render st;
  Some (log StatsUpdate st).

(** The frames that the display ticks [nows] trigger, one after the other. *)
Fixpoint frames (nows : list R) (st : state) : option state :=
  match nows with
  | [] => Some st
  | now :: rest => st ← animate now st; frames rest st
  end.

(** The inputs the simulation pass of a state would be issued with: the
    agent position its ['agentPosition'] uniform refers to. *)
Definition agent_input (st : state) : option Vector3 :=
  match heightmapUniforms st !! "agentPosition" with
  | Some (VObject l) => vector3_at l (objects st)
  | _ => None
  end.

(** A state in which a frame finds everything it dereferences: the objects
    of the sphere, the plane and the camera, and the uniform slots that
    [render] assigns through, and the render targets of the compute
    renderer.  ['cameraPos'] holds the vector [setWater] made for it. *)
Record ready (st : state) : Prop := Ready {
  ready_targets : has_targets (gpuCompute st) = true;
  ready_sphere : is_Some (vector3_at sphere_position (objects st));
  ready_camera : is_Some (vector3_at camera_position (objects st));
  ready_plane : is_Some (objects st !! plane_matrixWorld);
  ready_cameraPos_object : is_Some (vector3_at water_cameraPos (objects st));
  ready_cameraPos : waterUniforms st !! "cameraPos" = Some (VObject water_cameraPos);
  ready_water :
    is_Some (waterUniforms st !! "heightmap")
    /\ is_Some (waterUniforms st !! "agentPosition")
    /\ is_Some (waterUniforms st !! "tf_agent_to_world");
  ready_heightmap :
    is_Some (heightmapUniforms st !! "agentPosition")
    /\ is_Some (heightmapUniforms st !! "tf_water_to_world");
  ready_agent :
    is_Some (agentUniforms st !! "heightmap")
    /\ is_Some (agentUniforms st !! "tf_agent_to_world") }.

(** ** Scene setup *)

(** What the setup takes from outside the program. *)
Record env := Env {
  (** [ShaderLib['phong'].uniforms] *)
  phong : gmap string value;
  (** [material.opacity] of a fresh [ShaderMaterial] *)
  material_opacity : R;
  (** what [gpuCompute.init()] returns: [null] or an error message *)
  init_error : option string;
  (** [performance.now()] when the module is loaded *)
  load_time : R }.

(** [simplex.noise], for [fillTexture]. *)
Variable simplex_noise : R -> R -> R.

(** The module-level bindings before [init()]: [lastTimestamp] is set,
    [deltaTime = 0], everything else is still undefined (an empty uniform
    set has no key to assign through, as [undefined] has none). *)
Definition loaded (e : env) : state :=
  State (load_time e) 0 None ∅ ∅ ∅ ∅ (Gpu [] [] false false) [].

(** [gpuCompute.createTexture()]: four channels for each of the
    [WIDTH * WIDTH] cells, zeroed. *)
Definition createTexture : list R := replicate (4 * WIDTH * WIDTH) 0.

(** [setAgent()]: [UniformsUtils.merge] lets the later set win. *)
Definition setAgent (e : env) (st : state) : state :=
  let st := log SetAgent st in
  let own : gmap string value :=
    {[ "heightmap" := VNull;
       "tf_agent_to_world" := VNull;
       "waterWidth" := VNumber BOUNDS;
       "waterDepth" := VNumber BOUNDS;
       "water_resting_height" := VNumber (- BOUNDS / 16) ]} in
  let o := <[sphere_matrixWorld := OMatrix4 identity4]>
           (<[sphere_position := OVector3 (V3 0 0 0)]> (objects st)) in
  set_objects o (set_uniforms Agent (own ∪ phong e) st).

(** [setWater()].  The uniform writes of the setup go to the material being
    built and are not logged; only the frame's writes are.  [addVariable]
    and [init] leave the filled texture as the starting content of the
    variable's targets; when [init] returns an error there are no targets,
    the error is logged and [setWater] returns as usual.  The plane's world
    matrix is still the identity it was created with: [updateMatrix()]
    writes the local matrix only. *)
Definition setWater (e : env) (st : state) : option state :=
  let st := log SetWater st in
  let own : gmap string value :=
    {[ "heightmap" := VNull;
       "envMap" := VBackground;
       "cameraPos" := VObject water_cameraPos;
       "reflectionStrength" := VNumber 0.6;
       "transparency" := VNumber 0.8;
       "agentPosition" := VNull;
       "tf_agent_to_world" := VNull ]} in
  let u := own ∪ phong e in
  u ← set_value "diffuse" (VColor 0x0040C0) u;
  u ← set_value "specular" (VColor 0x111111) u;
  u ← set_value "shininess" (VNumber (Rmax 50 1e-4)) u;
  u ← set_value "opacity" (VNumber (material_opacity e)) u;
  let o := <[plane_matrixWorld := OMatrix4 identity4]>
           (<[water_cameraPos := OVector3 (V3 0 0 0)]> (objects st)) in
  let heightmap0 := Noise.fillTexture simplex_noise createTexture in
  let o := <[heightmap_mousePos := OVector2 (V2 10000 10000)]> o in
  let h : gmap string value :=
    <["tf_water_to_world" := VObject plane_matrixWorld]>
    (<["agentPosition" := VObject sphere_position]>
    (<["heightCompensation" := VNumber 0]>
    (<["viscosityConstant" := VNumber 0.98]>
    (<["mouseSize" := VNumber 20.0]>
    (<["mousePos" := VObject heightmap_mousePos]> ∅))))) in
  let st := set_objects o (set_uniforms Heightmap h (set_uniforms Water u st)) in
  Some match init_error e with
       | Some error => log (ConsoleError error) st
       | None => set_gpu (Gpu heightmap0 heightmap0 false true) st
       end.

(** [init()] up to and including [this.events()]. *)
Definition setup (e : env) : option state :=
  let st := loaded e in
  let st := set_objects (<[camera_position := OVector3 (V3 350 400 (-500))]> (objects st)) st in
  let st := log SetLights st in
  let st := log SetControls st in
  let st := log SetAxesHelper st in
  let st := setAgent e st in
  st ← setWater e st;
  let st := log SetGround st in
  let st := log SetWalls st in
  let st := log HandleResize st in
  Some (log Events st).

(** [init()]: the setup, then the first [this.animate()]. *)
Definition init (e : env) (now : R) : option state :=
  st ← setup e;
  animate now st.

(** *** The state the setup leaves *)

(** The operations of the setup, with or without the diagnostic. *)
Definition setup_trace (e : env) : list event :=
  [SetLights; SetControls; SetAxesHelper; SetAgent; SetWater]
  ++ match init_error e with Some error => [ConsoleError error] | None => [] end
  ++ [SetGround; SetWalls; HandleResize; Events].

Definition setup_objects : gmap loc object :=
  <[heightmap_mousePos := OVector2 (V2 10000 10000)]>
  (<[plane_matrixWorld := OMatrix4 identity4]>
  (<[water_cameraPos := OVector3 (V3 0 0 0)]>
  (<[sphere_matrixWorld := OMatrix4 identity4]>
  (<[sphere_position := OVector3 (V3 0 0 0)]>
  (<[camera_position := OVector3 (V3 350 400 (-500))]> ∅))))).

Definition setup_water (e : env) : gmap string value :=
  <["opacity" := VNumber (material_opacity e)]>
  (<["shininess" := VNumber (Rmax 50 1e-4)]>
  (<["specular" := VColor 0x111111]>
  (<["diffuse" := VColor 0x0040C0]>
  ({[ "heightmap" := VNull;
      "envMap" := VBackground;
      "cameraPos" := VObject water_cameraPos;
      "reflectionStrength" := VNumber 0.6;
      "transparency" := VNumber 0.8;
      "agentPosition" := VNull;
      "tf_agent_to_world" := VNull ]} ∪ phong e)))).

Definition setup_agent (e : env) : gmap string value :=
  {[ "heightmap" := VNull;
     "tf_agent_to_world" := VNull;
     "waterWidth" := VNumber BOUNDS;
     "waterDepth" := VNumber BOUNDS;
     "water_resting_height" := VNumber (- BOUNDS / 16) ]} ∪ phong e.

(** The simulation uniforms as [setWater] leaves them. *)
Definition simulation_uniforms : gmap string value :=
  <["tf_water_to_world" := VObject plane_matrixWorld]>
  (<["agentPosition" := VObject sphere_position]>
  (<["heightCompensation" := VNumber 0]>
  (<["viscosityConstant" := VNumber 0.98]>
  (<["mouseSize" := VNumber 20.0]>
  (<["mousePos" := VObject heightmap_mousePos]> ∅))))).

(** What [setup] returns when the phong uniforms are in place (see
    [setup_spec]). *)
Definition after_setup (e : env) : state :=
  State (load_time e) 0 None setup_objects (setup_water e) (setup_agent e)
        simulation_uniforms
        match init_error e with
        | Some _ => Gpu [] [] false false
        | None => Gpu (Noise.fillTexture simplex_noise createTexture)
                      (Noise.fillTexture simplex_noise createTexture) false true
        end
        (setup_trace e).

End Frame.

(** ** What holds between frames *)

(** A heightmap uniform of a rendered material is still [null], or is the
    texture of the current target. *)
Definition bound_to_current (g : gpu) (v : option value) : Prop :=
  v = Some VNull \/ v = Some (VTexture (getCurrentRenderTarget g)).

(** The states the program is in between two frames. *)
Record settled (st : state) : Prop := Settled {
  settled_ready : ready st;
  settled_simulation : heightmapUniforms st = simulation_uniforms;
  settled_mousePos :
    objects st !! heightmap_mousePos = Some (OVector2 (V2 10000 10000));
  settled_water : bound_to_current (gpuCompute st) (waterUniforms st !! "heightmap");
  settled_agent : bound_to_current (gpuCompute st) (agentUniforms st !! "heightmap") }.

(** ** Reading a trace *)

(** The stages of a frame, in the order the specification lists them. *)
Inductive phase :=
| Elapsed
| Kinematic
| SourceUpdate
| Simulation
| UniformRefresh
| DrawCall.

(** The stage an operation belongs to: reading the clock, moving the agent,
    writing a simulation uniform, the compute pass, writing a uniform of a
    rendered material, the draw call. *)
Definition phase_of (e : event) : option phase :=
  match e with
  | PerformanceNow _ => Some Elapsed
  | MoveAgent _ _ => Some Kinematic
  | SetUniform Heightmap _ _ => Some SourceUpdate
  | Compute _ _ => Some Simulation
  | SetUniform _ _ _ | CopyInto _ _ _ => Some UniformRefresh
  | Draw _ _ => Some DrawCall
  | _ => None
  end.

Definition rank (p : phase) : nat :=
  match p with
  | Elapsed => 0
  | Kinematic => 1
  | SourceUpdate => 2
  | Simulation => 3
  | UniformRefresh => 4
  | DrawCall => 5
  end.

Fixpoint ascending (l : list nat) : bool :=
  match l with
  | a :: (b :: _) as rest => (a <=? b)%nat && ascending rest
  | _ => true
  end.

(** The operations of [evs] go through the stages in the listed order. *)
Definition in_listed_order (evs : list event) : bool :=
  ascending (map rank (omap phase_of evs)).

Definition is_compute (e : event) : bool :=
  match e with Compute _ _ => true | _ => false end.

Definition is_source_update (e : event) : bool :=
  match e with SetUniform Heightmap _ _ => true | _ => false end.


Definition is_draw (e : event) : bool :=
  match e with Draw _ _ => true | _ => false end.

(** The compute passes of [evs]: which target each read and which it wrote. *)
Definition passes (evs : list event) : list (bool * bool) :=
  omap (fun e => match e with Compute src dst => Some (src, dst) | _ => None end) evs.

(** The draw calls of [evs], with the heightmap textures they sample. *)
Definition draws (evs : list event) : list (option value * option value) :=
  omap (fun e => match e with Draw w a => Some (w, a) | _ => None end) evs.

(** Index of the first operation of [evs] that satisfies [f]. *)
Fixpoint index_of (f : event -> bool) (evs : list event) : option nat :=
  match evs with
  | [] => None
  | e :: rest => if f e then Some 0%nat else S <$> index_of f rest
  end.



(** The "no perturbation" position: the far-away point that [setWater]
    gives ['mousePos']. *)
Definition sentinel (v : Vector3) : Prop := vx v = 10000 /\ vz v = 10000.

(** ** Sample inputs *)

Definition has_key (k : string) (u : gmap string value) : bool :=
  match u !! k with Some _ => true | None => false end.

(** The four phong uniforms that [setWater] assigns are there. *)
Definition phong_ok (e : env) : bool :=
  has_key "diffuse" (phong e) && has_key "specular" (phong e)
  && has_key "shininess" (phong e) && has_key "opacity" (phong e).

Definition sample_phong : gmap string value :=
  {[ "diffuse" := VColor 0xffffff;
     "specular" := VColor 0x111111;
     "shininess" := VNumber 30;
     "opacity" := VNumber 1;
     "emissive" := VColor 0 ]}.

(** An environment in which the compute renderer starts. *)
Definition sample_env : env := Env sample_phong 1 None 0.

(** An environment in which [gpuCompute.init()] reports an error. *)
Definition failing_env : env :=
  Env sample_phong 1 (Some "No OES_texture_float support") 0.

Definition sample_shader (u : gmap string value) (o : gmap loc object)
    (t : list R) : list R :=
  map (Rmult 0.98) t.

Definition sample_noise (x y : R) : R := x + y.


(** A state as the setup leaves it, on a one-cell texture. *)
Definition sample_state : state :=
  State 0 0 None
    (<[sphere_position := OVector3 (V3 0 0 0)]>
     (<[sphere_matrixWorld := OMatrix4 identity4]>
     (<[plane_matrixWorld := OMatrix4 identity4]>
     (<[camera_position := OVector3 (V3 350 400 (-500))]>
     (<[water_cameraPos := OVector3 (V3 0 0 0)]>
     (<[heightmap_mousePos := OVector2 (V2 10000 10000)]> ∅))))))
    {[ "heightmap" := VNull; "cameraPos" := VObject water_cameraPos;
       "agentPosition" := VNull; "tf_agent_to_world" := VNull ]}
    {[ "heightmap" := VNull; "tf_agent_to_world" := VNull ]}
    {[ "mousePos" := VObject heightmap_mousePos;
       "mouseSize" := VNumber 20.0;
       "viscosityConstant" := VNumber 0.98;
       "heightCompensation" := VNumber 0;
       "agentPosition" := VObject sphere_position;
       "tf_water_to_world" := VObject plane_matrixWorld ]}
    (Gpu [1; 1; 0; 1] [1; 1; 0; 1] false true)
    [].

(** [sample_state] once the agent has made a first step, of 16 ms. *)
Definition moved_state : state :=
  State 0 0 (Some (PI * 0.016))
    (<[sphere_position :=
         OVector3 (V3 (128 * cos (PI * 0.016)) 0 (128 * sin (PI * 0.016)))]>
       (objects sample_state))
    (waterUniforms sample_state) (agentUniforms sample_state)
    (heightmapUniforms sample_state) (gpuCompute sample_state)
    [MoveAgent (128 * cos (PI * 0.016)) (128 * sin (PI * 0.016))].

End Scene.

(** * The per-cell update rule *)

Module Heightfield.

Local Open Scope R_scope.

(** The fragment shader [heightmap.frag] is not among the sources; this
    module follows section 4.2 of the specification instead. *)

(** Modelled from the spec: the inputs of the shader besides the previous
    heightmap, namely the viscosity constant, the perturbation radius, the
    height compensation and the perturbation source in grid space. *)
Record params := Params {
  viscosityConstant : R;
  mouseSize : R;
  heightCompensation : R;
  source_x : R;
  source_y : R }.

Section Rule.

(** Strength of the disturbance at a given distance from the source; the
    specification leaves its profile open. *)
Variable bump : R -> R.

(** New height of a boundary cell: the boundary condition together with the
    compensation bias, which the specification leaves open. *)
Variable edge : params -> list R -> nat -> nat -> R.

(** Second channel of a written cell (the velocity-like term), left open
    in the same way. *)
Variable velocity : params -> list R -> nat -> nat -> R.

(** Modelled from the spec: channel 0 of cell [(i, j)] of a [WIDTH] by
    [WIDTH] texture is its height. *)
Definition height (t : list R) (i j : nat) : R :=
  default 0 (t !! (4 * (j * WIDTH + i))%nat).

(** Modelled from the spec: a cell away from the boundaries, that is off
    the four edges of the grid. *)
Definition interior (i j : nat) : bool :=
  (0 <? i)%nat && (i <? WIDTH - 1)%nat && (0 <? j)%nat && (j <? WIDTH - 1)%nat.

(** Modelled from the spec: Euclidean grid distance of cell [(i, j)] to
    the perturbation source. *)
Definition distance (p : params) (i j : nat) : R :=
  sqrt ((INR i - source_x p) ^ 2 + (INR j - source_y p) ^ 2).

(** Modelled from the spec: the additive perturbation term, active only
    within the perturbation radius of the source. *)
Definition perturbation (p : params) (i j : nat) : R :=
  if Rle_dec (distance p i j) (mouseSize p) then bump (distance p i j) else 0.

(** Modelled from the spec: the average of the four neighbours' previous
    heights. *)
Definition average4 (t : list R) (i j : nat) : R :=
  (height t (i - 1) j + height t (i + 1) j
   + height t i (j - 1) + height t i (j + 1)) / 4.

(** Modelled from the spec: the per-cell update rule of [heightmap.frag].
    The new height of a cell is the average of its neighbours' previous
    heights, damped by the viscosity constant, plus the perturbation term;
    boundary cells follow the boundary policy. *)
Definition new_height (p : params) (t : list R) (i j : nat) : R :=
  if interior i j
  then viscosityConstant p * average4 t i j + perturbation p i j
  else edge p t i j.

(** Modelled from the spec: the four channels written for a cell, height
    first, then the velocity-like term; the last two are not used. *)
Definition step_cell (p : params) (t : list R) (j i : nat) : list R :=
  [new_height p t i j; velocity p t i j; 0; 1].

(** Modelled from the spec: one simulation step over the whole grid, a pure
    function of the previous texture, written row by row into a fresh
    texture. *)
Definition step (p : params) (t : list R) : list R :=
  flat_map (fun j => flat_map (step_cell p t j) (seq 0 WIDTH)) (seq 0 WIDTH).

End Rule.

End Heightfield.

(** * From the agent's position to the perturbation source *)

Module Coupling.

Local Open Scope R_scope.

(** Where the simulation places the disturbance is decided by
    [heightmap.frag], from the uniforms that [render()] binds; the shader is
    not among the sources, and this module follows sections 4.4 and 7 of the
    specification instead. *)

Section Mapping.

(** The agent's world position taken into grid space through the inverse of
    the water-to-world transform, for transforms that have an inverse; the
    specification gives no formula for it. *)
Variable to_grid : Scene.Matrix4 -> Scene.Matrix4 -> Scene.Vector3 -> R * R.






Variable bump : R -> R.
Variable edge : Heightfield.params -> list R -> nat -> nat -> R.
Variable velocity : Heightfield.params -> list R -> nat -> nat -> R.


End Mapping.

End Coupling.

(** * The pool around the water *)

Module Pool.

Local Open Scope R_scope.

(** A plane mesh as [setWalls] and [setGround] place it: the size handed to
    [PlaneGeometry], the two rotations and the position they assign (what
    they do not assign stays at zero). *)
Record plane := Plane {
  plane_width : R;
  plane_height : R;
  rotation_x : R;
  rotation_y : R;
  position : Scene.Vector3 }.

(** [wall_1]: [rotation.y = -Math.PI / 2], [position.x = -BOUNDS / 2],
    [position.y = -BOUNDS / 4]. *)
Definition wall_1 : plane :=
  Plane BOUNDS (BOUNDS / 2) 0 (- PI / 2) (Scene.V3 (- BOUNDS / 2) (- BOUNDS / 4) 0).

(** [wall_2]: as [wall_1], at [position.x = BOUNDS / 2]. *)
Definition wall_2 : plane :=
  Plane BOUNDS (BOUNDS / 2) 0 (- PI / 2) (Scene.V3 (BOUNDS / 2) (- BOUNDS / 4) 0).

(** [wall_3]: [position.z = -BOUNDS / 2], [position.y = -BOUNDS / 4]. *)
Definition wall_3 : plane :=
  Plane BOUNDS (BOUNDS / 2) 0 0 (Scene.V3 0 (- BOUNDS / 4) (- BOUNDS / 2)).

(** [wall_4]: as [wall_3], at [position.z = BOUNDS / 2]. *)
Definition wall_4 : plane :=
  Plane BOUNDS (BOUNDS / 2) 0 0 (Scene.V3 0 (- BOUNDS / 4) (BOUNDS / 2)).

(** [setWalls()]: the four meshes it adds to the scene, in order. *)
Definition setWalls : list plane := [wall_1; wall_2; wall_3; wall_4].

(** [setGround()]: [rotation.x = -Math.PI / 2], [position.y = -BOUNDS / 2]. *)
Definition setGround : plane :=
  Plane BOUNDS BOUNDS (- PI / 2) 0 (Scene.V3 0 (- BOUNDS / 2) 0).

End Pool.

(** * Resizing *)

Module Viewport.

Local Open Scope R_scope.





End Viewport.

(** * The agent's arithmetic in floating point *)

Module Rounded.

Local Open Scope R_scope.

(** JavaScript numbers are IEEE doubles.  Where a property compares the
    results of two different computations, rounding decides whether it
    holds, and the arithmetic of [animate] and [stepAgent] is written out
    here once more, operation by operation, each operation ending in the
    rounding that gives its result. *)

Section Arithmetic.

(** The rounding of an exact result to the number the operation returns. *)
Variable fl : R -> R.

(** [Math.PI], and [Math.cos] and [Math.sin] as the engine computes them. *)
Variable Math_PI : R.
Variable Math_cos Math_sin : R -> R.

(** [const radius = BOUNDS / 4;] *)
Definition radius : R := fl (BOUNDS / 4).

(** [const speed = 2 * Math.PI * radius / 2;] *)
Definition speed : R := fl (fl (fl (2 * Math_PI) * radius) / 2).

(** [(this.currentAngle || 0) + (speed * deltaTime) / radius], the value
    stored in [this.currentAngle]. *)
Definition advance (currentAngle : option R) (dt : R) : R :=
  fl (Scene.or_zero currentAngle + fl (fl (speed * dt) / radius)).

(** [radius * Math.cos(this.currentAngle)] and
    [radius * Math.sin(this.currentAngle)], the values stored in the
    sphere's position. *)
Definition position_x (angle : R) : R := fl (radius * Math_cos angle).

Definition position_z (angle : R) : R := fl (radius * Math_sin angle).

(** [(currentTimestamp - lastTimestamp) / 1000], the value of
    [deltaTime]. *)
Definition elapsed (now last : R) : R := fl (fl (now - last) / 1000).

(** What a frame does to [lastTimestamp] and [this.currentAngle], [now]
    being what [performance.now()] returns. *)
Definition frame (s : R * option R) (now : R) : R * option R :=
  (now, Some (advance (snd s) (elapsed now (fst s)))).

(** The frames of the display ticks [nows], one after the other. *)
Definition run (nows : list R) (s : R * option R) : R * option R :=
  fold_left frame nows s.

End Arithmetic.

(** How far the clock has moved over the readings [nows], starting from
    [last]; for a clock that never runs backwards this is the time elapsed
    between [last] and the final reading. *)
Fixpoint variation (last : R) (nows : list R) : R :=
  match nows with
  | [] => 0
  | now :: rest => Rabs (now - last) + variation now rest
  end.

(** [x] is [X] up to a relative error of at most [k]. *)
Definition rel_error (k x X : R) : Prop :=
  exists d, x = X * (1 + d) /\ Rabs d <= k.

(** The relative drift that [n] frames can add to the stored angle, for a
    unit roundoff [u]. *)
Definition drift (u : R) (n : nat) : R := (1 + 13 * u) * (1 + u) ^ n - 1.

(** An arithmetic that returns every result one part in 2000 too large. *)
Definition sample_fl (x : R) : R := x * (1 + 1 / 2000).

End Rounded.

(** * Properties of the noise field generator *)

Section NoiseFacts.

Local Open Scope R_scope.

Variable simplex_noise : R -> R -> R.

Lemma sum_snoc (l : list R) (a : R) :
  fold_right Rplus 0 (l ++ [a]) = fold_right Rplus 0 l + a.
Proof.
  induction l as [|b l IH]; simpl.
  - lra.
  - rewrite IH. lra.
Qed.

Lemma noise_loop_S (n : nat) (x y : R) :
  Noise.noise_loop simplex_noise (S n) x y =
  Noise.noise_body simplex_noise x y (Noise.noise_loop simplex_noise n x y) n.
Proof.
  unfold Noise.noise_loop. rewrite seq_S, fold_left_app. reflexivity.
Qed.

(** After [n] passes the three loop variables hold the amplitude and the
    frequency of octave [n] and the sum of the octaves before it. *)
Lemma noise_loop_inv (n : nat) (x y : R) :
  Noise.noise_loop simplex_noise n x y =
  Noise.Acc (Noise.amplitude n) (Noise.frequency n)
            (Noise.octave_sum simplex_noise n x y).
Proof.
  induction n as [|n IH].
  - reflexivity.
  - rewrite noise_loop_S, IH.
    unfold Noise.noise_body, Noise.octave_sum; cbn [Noise.multR Noise.mult Noise.r].
    rewrite seq_S, map_app; cbn [map].
    rewrite sum_snoc. reflexivity.
Qed.

(** C2: [noise(x, y)] is the sum of 15 octaves of simplex noise; the
    amplitude multiplier starts at 10 and is multiplied by
    [0.53 + 0.025 * i] after octave [i], the frequency multiplier starts at
    0.025 and is multiplied by 1.25 after each octave. *)
Theorem noise_is_octave_sum (x y : R) :
  Noise.noise simplex_noise x y =
    fold_right Rplus 0
      (map (fun i => Noise.amplitude i *
                     simplex_noise (x * Noise.frequency i) (y * Noise.frequency i))
           (seq 0 15))
  /\ Noise.amplitude 0 = Noise.waterMaxHeight
  /\ Noise.waterMaxHeight = 10
  /\ (forall i, Noise.amplitude (S i) = Noise.amplitude i * (0.53 + 0.025 * INR i))
  /\ Noise.frequency 0 = 0.025
  /\ (forall i, Noise.frequency (S i) = Noise.frequency i * 1.25).
Proof.
  repeat split.
  unfold Noise.noise. rewrite noise_loop_inv. reflexivity.
Qed.

(** ** The texture, cell by cell *)

(** The four stores of a cell land on the four slots that follow the part
    already written. *)
Lemma write_cell_app (h : R) (done rest : list R) (a b c d : R) :
  Noise.write_cell h (done ++ a :: b :: c :: d :: rest) (length done) =
  done ++ [h; h; 0; 1] ++ rest.
Proof.
  unfold Noise.write_cell.
  rewrite !insert_app_r_alt by lia.
  replace (length done + 0 - length done)%nat with 0%nat by lia.
  replace (length done + 1 - length done)%nat with 1%nat by lia.
  replace (length done + 2 - length done)%nat with 2%nat by lia.
  replace (length done + 3 - length done)%nat with 3%nat by lia.
  rewrite lookup_app_r by lia.
  replace (length done + 0 - length done)%nat with 0%nat by lia.
  reflexivity.
Qed.

(** Past the end of the array the cell's stores change nothing. *)
Lemma write_cell_short (h : R) (pixels : list R) (p : nat) :
  (length pixels <= p)%nat -> Noise.write_cell h pixels p = pixels.
Proof.
  intros Hp. unfold Noise.write_cell.
  rewrite !list_insert_ge by (rewrite ?length_insert; lia). reflexivity.
Qed.

Lemma length_cell (W j i : nat) : length (Noise.cell simplex_noise W j i) = 4%nat.
Proof. reflexivity. Qed.

Lemma length_cells (W j a n : nat) :
  length (flat_map (Noise.cell simplex_noise W j) (seq a n)) = (4 * n)%nat.
Proof.
  revert a; induction n as [|n IH]; intros a; [reflexivity|].
  cbn [seq flat_map]. rewrite length_app, IH, length_cell. lia.
Qed.

Lemma length_row (W j : nat) : length (Noise.row simplex_noise W j) = (4 * W)%nat.
Proof. apply length_cells. Qed.

(** The inner loop over the cells [a, a + n) of row [j]. *)
Lemma fill_cells (W j n a : nat) (done rest : list R) :
  (4 * n <= length rest)%nat ->
  fold_left (Noise.fill_cell simplex_noise W j) (seq a n) (done ++ rest, length done) =
  (done ++ flat_map (Noise.cell simplex_noise W j) (seq a n) ++ drop (4 * n) rest,
   (length done + 4 * n)%nat).
Proof.
  revert a done rest; induction n as [|n IH]; intros a done rest Hlen.
  - cbn. rewrite Nat.add_0_r. reflexivity.
  - destruct rest as [|c0 [|c1 [|c2 [|c3 rest]]]]; cbn [length] in Hlen; try lia.
    cbn [seq fold_left Noise.fill_cell].
    rewrite write_cell_app.
    replace (length done + 4)%nat
      with (length (done ++ Noise.cell simplex_noise W j a))
      by (rewrite length_app, length_cell; reflexivity).
    change (done ++ [Noise.noise simplex_noise (Noise.coord W a) (Noise.coord W j);
                     Noise.noise simplex_noise (Noise.coord W a) (Noise.coord W j); 0; 1] ++ rest)
      with (done ++ Noise.cell simplex_noise W j a ++ rest).
    rewrite (assoc_L app done).
    rewrite IH by lia.
    rewrite length_app, length_cell.
    cbn [flat_map]. rewrite <- !(assoc_L app).
    f_equal; [|lia].
    do 3 f_equal. replace (4 * S n)%nat with (4 + 4 * n)%nat by lia. reflexivity.
Qed.

Lemma fill_row_app (W j : nat) (done rest : list R) :
  (4 * W <= length rest)%nat ->
  Noise.fill_row simplex_noise W (done ++ rest, length done) j =
  (done ++ Noise.row simplex_noise W j ++ drop (4 * W) rest,
   (length done + 4 * W)%nat).
Proof. apply fill_cells. Qed.

(** The outer loop over the rows [a, a + n). *)
Lemma fill_rows (W n a : nat) (done rest : list R) :
  (4 * W * n <= length rest)%nat ->
  fold_left (Noise.fill_row simplex_noise W) (seq a n) (done ++ rest, length done) =
  (done ++ flat_map (Noise.row simplex_noise W) (seq a n) ++ drop (4 * W * n) rest,
   (length done + 4 * W * n)%nat).
Proof.
  revert a done rest; induction n as [|n IH]; intros a done rest Hlen.
  - cbn. rewrite Nat.mul_0_r, Nat.add_0_r. reflexivity.
  - rewrite Nat.mul_succ_r in *.
    cbn [seq fold_left].
    rewrite fill_row_app by lia.
    replace (length done + 4 * W)%nat
      with (length (done ++ Noise.row simplex_noise W a))
      by (rewrite length_app, length_row; reflexivity).
    rewrite (assoc_L app done).
    rewrite IH by (rewrite length_drop; lia).
    rewrite length_app, length_row, drop_drop.
    cbn [flat_map]. rewrite <- !(assoc_L app).
    f_equal; [|lia].
    do 2 f_equal. rewrite (Nat.add_comm (4 * W)). reflexivity.
Qed.

(** On an array of the right size [fillTexture] overwrites every slot. *)
Lemma fillTexture_w_texels (W : nat) (pixels : list R) :
  length pixels = (4 * W * W)%nat ->
  Noise.fillTexture_w simplex_noise W pixels = Noise.texels simplex_noise W.
Proof.
  intros Hlen. unfold Noise.fillTexture_w.
  pose proof (fill_rows W W 0 [] pixels) as Hrows.
  cbn [app length] in Hrows. rewrite Hrows by lia.
  cbn [fst]. rewrite drop_ge by lia.
  rewrite app_nil_r. reflexivity.
Qed.

(** Looking a slot up in a concatenation of blocks of equal length. *)
Lemma lookup_flat_map_uniform {A : Type} (f : nat -> list A) (m : nat) :
  (forall k, length (f k) = m) ->
  forall (n a k c : nat), (k < n)%nat -> (c < m)%nat ->
  flat_map f (seq a n) !! (k * m + c)%nat = f (a + k)%nat !! c.
Proof.
  intros Hf n; induction n as [|n IH]; intros a k c Hk Hc; [lia|].
  cbn [seq flat_map].
  destruct k as [|k].
  - rewrite lookup_app_l by (rewrite Hf; lia).
    rewrite Nat.add_0_r. reflexivity.
  - rewrite lookup_app_r by (rewrite Hf; lia).
    rewrite Hf.
    replace (S k * m + c - m)%nat with (k * m + c)%nat by lia.
    rewrite IH by lia. f_equal. f_equal. lia.
Qed.

Lemma texels_lookup (W i j c : nat) :
  (i < W)%nat -> (j < W)%nat -> (c < 4)%nat ->
  Noise.texels simplex_noise W !! (4 * (j * W + i) + c)%nat =
  Noise.cell simplex_noise W j i !! c.
Proof.
  intros Hi Hj Hc. unfold Noise.texels.
  replace (4 * (j * W + i) + c)%nat with (j * (4 * W) + (i * 4 + c))%nat by lia.
  rewrite (lookup_flat_map_uniform _ (4 * W)) by (auto using length_row; lia).
  unfold Noise.row.
  rewrite (lookup_flat_map_uniform _ 4) by (auto using length_cell).
  reflexivity.
Qed.

Lemma length_rows (W a n : nat) :
  length (flat_map (Noise.row simplex_noise W) (seq a n)) = (4 * W * n)%nat.
Proof.
  revert a; induction n as [|n IH]; intros a.
  - cbn. lia.
  - cbn [seq flat_map]. rewrite length_app, IH, length_row, Nat.mul_succ_r. lia.
Qed.

Lemma length_texels (W : nat) :
  length (Noise.texels simplex_noise W) = (4 * W * W)%nat.
Proof. apply length_rows. Qed.

(** C9: in the texture [fillTexture] leaves, every cell [(i, j)] of the
    [WIDTH] by [WIDTH] grid has the noise height in channel 0, the same
    number in channel 1, 0 in channel 2 and the constant 1 in channel 3. *)
Theorem fillTexture_channels (pixels : list R) (i j : nat) :
  length pixels = (4 * WIDTH * WIDTH)%nat ->
  (i < WIDTH)%nat -> (j < WIDTH)%nat ->
  let t := Noise.fillTexture simplex_noise pixels in
  let p := (4 * (j * WIDTH + i))%nat in
  let h := Noise.noise simplex_noise (INR i * 128 / INR WIDTH) (INR j * 128 / INR WIDTH) in
  t !! (p + 0)%nat = Some h
  /\ t !! (p + 1)%nat = t !! (p + 0)%nat
  /\ t !! (p + 2)%nat = Some 0
  /\ t !! (p + 3)%nat = Some 1
  /\ length t = (4 * WIDTH * WIDTH)%nat.
Proof.
  intros Hlen Hi Hj t p h. subst t p.
  unfold Noise.fillTexture. rewrite (fillTexture_w_texels _ _ Hlen).
  rewrite !texels_lookup by lia.
  rewrite length_texels.
  repeat apply conj; reflexivity.
Qed.

End NoiseFacts.

Lemma fillTexture_channels_witness :
  let pixels := replicate (4 * WIDTH * WIDTH) 0%R in
  let t := Noise.fillTexture Scene.sample_noise pixels in
  let p := (4 * (5 * WIDTH + 3))%nat in
  let h := Noise.noise Scene.sample_noise
             (INR 3 * 128 / INR WIDTH) (INR 5 * 128 / INR WIDTH) in
  length pixels = (4 * WIDTH * WIDTH)%nat
  /\ (3 < WIDTH)%nat
  /\ (5 < WIDTH)%nat
  /\ t !! (p + 0)%nat = Some h
  /\ t !! (p + 1)%nat = t !! (p + 0)%nat
  /\ t !! (p + 2)%nat = Some 0%R
  /\ t !! (p + 3)%nat = Some 1%R
  /\ length t = (4 * WIDTH * WIDTH)%nat.
Proof.
  intros pixels t p h.
  assert (Hlen : length pixels = (4 * WIDTH * WIDTH)%nat) by apply length_replicate.
  assert (H3 : (3 < WIDTH)%nat) by (unfold WIDTH; lia).
  assert (H5 : (5 < WIDTH)%nat) by (unfold WIDTH; lia).
  split; [exact Hlen|]. split; [exact H3|]. split; [exact H5|].
  exact (fillTexture_channels Scene.sample_noise pixels 3 5 Hlen H3 H5).
Defined.

(** * The update rule on interior cells *)

Section Diffusion.

Local Open Scope R_scope.
Import Heightfield.

Variable bump : R -> R.
Variable edge : params -> list R -> nat -> nat -> R.
Variable velocity : params -> list R -> nat -> nat -> R.

Lemma length_step_cell (p : params) (t : list R) (j i : nat) :
  length (step_cell bump edge velocity p t j i) = 4%nat.
Proof. reflexivity. Qed.

Lemma length_step_row (p : params) (t : list R) (j a n : nat) :
  length (flat_map (step_cell bump edge velocity p t j) (seq a n)) = (4 * n)%nat.
Proof.
  revert a; induction n as [|n IH]; intros a; [reflexivity|].
  cbn [seq flat_map]. rewrite length_app, IH, length_step_cell. lia.
Qed.

(** Channel 0 of a cell of the stepped texture is the cell's new height. *)
Lemma height_step (p : params) (t : list R) (i j : nat) :
  (i < WIDTH)%nat -> (j < WIDTH)%nat ->
  height (step bump edge velocity p t) i j = new_height bump edge p t i j.
Proof.
  intros Hi Hj. unfold height, step.
  replace (4 * (j * WIDTH + i))%nat with (j * (4 * WIDTH) + (i * 4 + 0))%nat by lia.
  rewrite (lookup_flat_map_uniform _ (4 * WIDTH))
    by (auto using length_step_row; lia).
  rewrite (lookup_flat_map_uniform _ 4) by (auto using length_step_cell; lia).
  reflexivity.
Qed.

Lemma interior_inside (i j : nat) :
  interior i j = true -> (i < WIDTH)%nat /\ (j < WIDTH)%nat.
Proof.
  unfold interior. rewrite !andb_true_iff, !Nat.ltb_lt. lia.
Qed.

(** C8: for a cell away from the four edges and farther from the
    perturbation source than the radius, one step with viscosity constant 1
    and height compensation 0 puts the unweighted average of the previous
    heights of its four neighbours in the cell. *)
Theorem pure_diffusion (p : params) (t : list R) (i j : nat) :
  interior i j = true ->
  distance p i j > mouseSize p ->
  viscosityConstant p = 1 ->
  heightCompensation p = 0 ->
  height (step bump edge velocity p t) i j =
  (height t (i - 1) j + height t (i + 1) j
   + height t i (j - 1) + height t i (j + 1)) / 4.
Proof.
  intros Hin Hfar Hvisc _.
  destruct (interior_inside i j Hin) as [Hi Hj].
  rewrite height_step by assumption.
  unfold new_height, perturbation, average4. rewrite Hin, Hvisc.
  destruct (Rle_dec (distance p i j) (mouseSize p)); lra.
Qed.

End Diffusion.

Section DiffusionWitness.

Local Open Scope R_scope.
Import Heightfield.

Lemma pure_diffusion_witness :
  let p := Params 1 20 0 10000 10000 in
  let t := replicate (4 * WIDTH * WIDTH) 1 in
  interior 5 7 = true
  /\ distance p 5 7 > mouseSize p
  /\ viscosityConstant p = 1
  /\ heightCompensation p = 0
  /\ height (step (fun d => 1 - d / 20) (fun _ _ _ _ => 0) (fun _ t i j => height t i j) p t) 5 7
     = (height t (5 - 1) 7 + height t (5 + 1) 7
        + height t 5 (7 - 1) + height t 5 (7 + 1)) / 4.
Proof.
  intros p t.
  assert (Hfar : distance p 5 7 > mouseSize p).
  { unfold distance, p; cbn [source_x source_y mouseSize INR].
    apply Rlt_gt. rewrite <- (sqrt_pow2 20) by lra.
    apply sqrt_lt_1; lra. }
  split; [reflexivity|].
  split; [exact Hfar|].
  split; [reflexivity|].
  split; [reflexivity|].
  apply (pure_diffusion (fun d => 1 - d / 20) (fun _ _ _ _ => 0)
           (fun _ t i j => height t i j) p t 5 7);
    [reflexivity | exact Hfar | reflexivity | reflexivity].
Defined.

End DiffusionWitness.

(** * Degenerate transforms *)

Section Degenerate.

Local Open Scope R_scope.
Import Heightfield Coupling.

Variable to_grid : Scene.Matrix4 -> Scene.Matrix4 -> Scene.Vector3 -> R * R.
Variable bump : R -> R.
Variable edge : params -> list R -> nat -> nat -> R.
Variable velocity : params -> list R -> nat -> nat -> R.




End Degenerate.

Section DegenerateWitness.

Local Open Scope R_scope.
Import Heightfield Coupling.



End DegenerateWitness.

(** * The generator and the noise instance *)

Section Instance.

Local Open Scope R_scope.




End Instance.



(** * Running the scene *)

(** Reduce the state updates of a run, innermost first. *)
Ltac run_scene :=
  cbv beta iota zeta delta
      [Scene.log Scene.set_objects Scene.set_gpu Scene.set_uniforms Scene.uniforms
       Scene.lastTimestamp Scene.deltaTime Scene.currentAngle Scene.objects Scene.waterUniforms
       Scene.agentUniforms Scene.heightmapUniforms Scene.gpuCompute Scene.trace
       mbind option_bind].

(** Look an object up in a store built by inserts. *)
Ltac find_object :=
  unfold Scene.vector3_at;
  rewrite ?lookup_insert_ne by done;
  rewrite lookup_insert_eq; eauto.

Section SceneFacts.

Local Open Scope R_scope.
Import Scene.

Variable heightmap_shader :
  gmap string value -> gmap loc object -> list R -> list R.

Lemma vector3_at_insert_ne (l l' : loc) (ob : object) (o : gmap loc object) :
  l <> l' -> vector3_at l' (<[l := ob]> o) = vector3_at l' o.
Proof. intros Hne. unfold vector3_at. rewrite lookup_insert_ne by done. reflexivity. Qed.

Lemma vector3_at_insert (l : loc) (v : Vector3) (o : gmap loc object) :
  vector3_at l (<[l := OVector3 v]> o) = Some v.
Proof. unfold vector3_at. rewrite lookup_insert_eq. reflexivity. Qed.

Lemma assign_spec (m : material) (key : string) (v : value) (st : state) :
  is_Some (uniforms m st !! key) ->
  assign m key v st =
  Some (log (SetUniform m key v) (set_uniforms m (<[key := v]> (uniforms m st)) st)).
Proof.
  intros [w Hw]. unfold assign, set_value. rewrite Hw. reflexivity.
Qed.

Lemma copy_into_spec (m : material) (key : string) (src dst : loc)
    (v0 v : Vector3) (st : state) :
  uniforms m st !! key = Some (VObject dst) ->
  vector3_at dst (objects st) = Some v0 ->
  vector3_at src (objects st) = Some v ->
  copy_into m key src st =
  Some (log (CopyInto m key v)
            (set_objects (<[dst := OVector3 v]> (objects st)) st)).
Proof.
  intros Hk Hd Hs. unfold copy_into. rewrite Hk, Hd, Hs. reflexivity.
Qed.

Lemma console_log_spec (l : loc) (ob : object) (st : state) :
  objects st !! l = Some ob -> console_log l st = Some (log (ConsoleLog ob) st).
Proof. intros Hl. unfold console_log. rewrite Hl. reflexivity. Qed.

Lemma current_after_step (g : gpu) (b : bool) (t : list R) :
  currentTextureIndex (flip (write_target g b t)) = negb (currentTextureIndex g).
Proof. destruct b; reflexivity. Qed.

Lemma targets_after_step (g : gpu) (b : bool) (t : list R) :
  has_targets (flip (write_target g b t)) = has_targets g.
Proof. destruct b; reflexivity. Qed.

Lemma compute_spec (st : state) :
  has_targets (gpuCompute st) = true ->
  compute heightmap_shader st =
  Some (log (Compute (currentTextureIndex (gpuCompute st))
                     (negb (currentTextureIndex (gpuCompute st))))
         (set_gpu (flip (write_target (gpuCompute st)
                           (negb (currentTextureIndex (gpuCompute st)))
                           (heightmap_shader (heightmapUniforms st) (objects st)
                              (target (gpuCompute st)
                                 (currentTextureIndex (gpuCompute st))))))
                  st)).
Proof. intros Ht. unfold compute. rewrite Ht. reflexivity. Qed.

(** *** What the renderer does to the store *)

(** Only the two world matrices are written. *)
Lemma updateMatrixWorld_other (l : loc) (o : gmap loc object) :
  l <> sphere_matrixWorld -> l <> plane_matrixWorld ->
  updateMatrixWorld o !! l = o !! l.
Proof.
  intros H1 H2. unfold updateMatrixWorld.
  destruct (o !! sphere_matrixWorld) as [m|] eqn:Hm;
    [destruct (vector3_at sphere_position o) as [p|]|].
  - rewrite (lookup_insert_ne o sphere_matrixWorld plane_matrixWorld) by done.
    destruct (o !! plane_matrixWorld);
      rewrite ?lookup_insert_ne by done; reflexivity.
  - destruct (o !! plane_matrixWorld);
      rewrite ?lookup_insert_ne by done; reflexivity.
  - destruct (o !! plane_matrixWorld);
      rewrite ?lookup_insert_ne by done; reflexivity.
Qed.

Lemma updateMatrixWorld_vector3 (l : loc) (o : gmap loc object) :
  l <> sphere_matrixWorld -> l <> plane_matrixWorld ->
  vector3_at l (updateMatrixWorld o) = vector3_at l o.
Proof.
  intros H1 H2. unfold vector3_at. rewrite updateMatrixWorld_other by assumption.
  reflexivity.
Qed.

(** The plane's world matrix becomes its local matrix. *)
Lemma updateMatrixWorld_plane (o : gmap loc object) :
  is_Some (o !! plane_matrixWorld) ->
  updateMatrixWorld o !! plane_matrixWorld = Some (OMatrix4 plane_matrix).
Proof.
  intros [M HM]. unfold updateMatrixWorld.
  destruct (o !! sphere_matrixWorld) as [m|] eqn:Hm;
    [destruct (vector3_at sphere_position o) as [p|]|].
  - rewrite (lookup_insert_ne o sphere_matrixWorld plane_matrixWorld) by done.
    rewrite HM. apply lookup_insert_eq.
  - rewrite HM. apply lookup_insert_eq.
  - rewrite HM. apply lookup_insert_eq.
Qed.

(** The sphere's world matrix becomes the local matrix of its position. *)
Lemma updateMatrixWorld_sphere (o : gmap loc object) (p : Vector3) :
  is_Some (o !! sphere_matrixWorld) ->
  vector3_at sphere_position o = Some p ->
  updateMatrixWorld o !! sphere_matrixWorld = Some (OMatrix4 (sphere_matrix p)).
Proof.
  intros [m Hm] Hp. unfold updateMatrixWorld. rewrite Hm, Hp.
  rewrite (lookup_insert_ne o sphere_matrixWorld plane_matrixWorld) by done.
  destruct (o !! plane_matrixWorld).
  - rewrite lookup_insert_ne by done. apply lookup_insert_eq.
  - apply lookup_insert_eq.
Qed.

Lemma updateMatrixWorld_absent (l : loc) (o : gmap loc object) :
  o !! l = None -> updateMatrixWorld o !! l = None.
Proof.
  intros Hl. unfold updateMatrixWorld.
  destruct (o !! sphere_matrixWorld) as [m|] eqn:Hm;
    [destruct (vector3_at sphere_position o) as [p|]|].
  - rewrite (lookup_insert_ne o sphere_matrixWorld plane_matrixWorld) by done.
    destruct (o !! plane_matrixWorld) eqn:HM.
    + rewrite !lookup_insert_ne by congruence. exact Hl.
    + rewrite lookup_insert_ne by congruence. exact Hl.
  - destruct (o !! plane_matrixWorld) eqn:HM.
    + rewrite lookup_insert_ne by congruence. exact Hl.
    + exact Hl.
  - destruct (o !! plane_matrixWorld) eqn:HM.
    + rewrite lookup_insert_ne by congruence. exact Hl.
    + exact Hl.
Qed.

Lemma render_spec lt dt ca o wu au hu g tr p cam M :
  ready (State lt dt ca o wu au hu g tr) -> 
  vector3_at sphere_position o = Some p ->
  vector3_at camera_position o = Some cam ->
  o !! plane_matrixWorld = Some M ->
  let c := currentTextureIndex g in
  render heightmap_shader (State lt dt ca o wu au hu g tr) =
  Some (State lt dt ca (updateMatrixWorld (<[water_cameraPos := OVector3 cam]> o))
    (<["tf_agent_to_world" := VObject sphere_matrixWorld]>
      (<["agentPosition" := VObject sphere_position]>
        (<["heightmap" := VTexture (negb c)]> wu)))
    (<["tf_agent_to_world" := VObject sphere_matrixWorld]>
      (<["heightmap" := VTexture (negb c)]> au))
    (<["tf_water_to_world" := VObject plane_matrixWorld]>
      (<["agentPosition" := VObject sphere_position]> hu))
    (flip (write_target g (negb c) (heightmap_shader hu o (target g c))))
    (tr ++ [Compute c (negb c);
            SetUniform Water "heightmap" (VTexture (negb c));
            CopyInto Water "cameraPos" cam;
            SetUniform Water "agentPosition" (VObject sphere_position);
            SetUniform Water "tf_agent_to_world" (VObject sphere_matrixWorld);
            SetUniform Heightmap "agentPosition" (VObject sphere_position);
            SetUniform Heightmap "tf_water_to_world" (VObject plane_matrixWorld);
            SetUniform Agent "heightmap" (VTexture (negb c));
            SetUniform Agent "tf_agent_to_world" (VObject sphere_matrixWorld);
            ConsoleLog (OVector3 p);
            ConsoleLog M;
            Draw (Some (VTexture (negb c))) (Some (VTexture (negb c)))])).
Proof.
  intros [Ht _ _ _ [c0 Hc0] Hcp (Hw1 & Hw2 & Hw3) (Hh1 & Hh2) (Ha1 & Ha2)] Hp Hcam HM c.
  cbn [objects waterUniforms heightmapUniforms agentUniforms gpuCompute] in *.
  assert (Hp' : o !! sphere_position = Some (OVector3 p)).
  { unfold vector3_at in Hp. destruct (o !! sphere_position) as [[]|]; congruence. }
  unfold render. rewrite compute_spec by exact Ht.
  unfold getCurrentRenderTarget. run_scene.
  rewrite !current_after_step. fold c.
  rewrite assign_spec by (run_scene; done). run_scene.
  erewrite copy_into_spec; run_scene;
    [| rewrite lookup_insert_ne by done; exact Hcp | exact Hc0 | exact Hcam].
  rewrite assign_spec by (run_scene; rewrite lookup_insert_ne by done; done). run_scene.
  rewrite assign_spec by (run_scene; rewrite !lookup_insert_ne by done; done). run_scene.
  rewrite assign_spec by (run_scene; done). run_scene.
  rewrite assign_spec by (run_scene; rewrite lookup_insert_ne by done; done). run_scene.
  rewrite assign_spec by (run_scene; done). run_scene.
  rewrite assign_spec by (run_scene; rewrite lookup_insert_ne by done; done). run_scene.
  erewrite console_log_spec; run_scene;
    [| rewrite lookup_insert_ne by done; exact Hp'].
  erewrite console_log_spec; run_scene;
    [| rewrite lookup_insert_ne by done; exact HM].
  unfold draw. run_scene. rewrite ?current_after_step. fold c.
  rewrite lookup_insert_ne by done. rewrite lookup_insert_ne by done.
  rewrite lookup_insert_eq. rewrite lookup_insert_ne by done. rewrite lookup_insert_eq.
  rewrite <- !(assoc_L app). reflexivity.
Qed.

Lemma ready_objects lt dt ca o wu au hu g tr :
  ready (State lt dt ca o wu au hu g tr) ->
  exists p cam M,
    vector3_at sphere_position o = Some p
    /\ vector3_at camera_position o = Some cam
    /\ o !! plane_matrixWorld = Some M.
Proof.
  intros [_ [p Hp] [cam Hcam] [M HM] _ _ _ _ _]. cbn [objects] in *.
  exists p, cam, M. auto.
Qed.

(** Moving the agent keeps a state ready. *)
Lemma ready_move lt dt ca o wu au hu g tr lt' dt' ca' tr' (p' : Vector3) :
  ready (State lt dt ca o wu au hu g tr) ->
  ready (State lt' dt' ca' (<[sphere_position := OVector3 p']> o) wu au hu g tr').
Proof.
  intros [Ht Hs Hc HM Hw Hcp H1 H2 H3];
    cbn [objects waterUniforms heightmapUniforms agentUniforms gpuCompute] in *.
  split; cbn [objects waterUniforms heightmapUniforms agentUniforms gpuCompute];
    try assumption.
  - rewrite vector3_at_insert. eauto.
  - rewrite vector3_at_insert_ne by done. assumption.
  - rewrite lookup_insert_ne by done. assumption.
  - rewrite vector3_at_insert_ne by done. assumption.
Qed.

(** One frame from a ready state, in full. *)
Lemma animate_spec now lt dt ca o wu au hu g tr p cam M :
  ready (State lt dt ca o wu au hu g tr) ->
  vector3_at sphere_position o = Some p ->
  vector3_at camera_position o = Some cam ->
  o !! plane_matrixWorld = Some M ->
  let c := currentTextureIndex g in
  let dt' := (now - lt) / 1000 in
  let angle := or_zero ca + (2 * PI * (BOUNDS / 4) / 2 * dt') / (BOUNDS / 4) in
  let p' := V3 (BOUNDS / 4 * cos angle) (vy p) (BOUNDS / 4 * sin angle) in
  let o' := <[sphere_position := OVector3 p']> o in
  animate heightmap_shader now (State lt dt ca o wu au hu g tr) =
  Some (State now dt' (Some angle)
    (updateMatrixWorld (<[water_cameraPos := OVector3 cam]> o'))
    (<["tf_agent_to_world" := VObject sphere_matrixWorld]>
      (<["agentPosition" := VObject sphere_position]>
        (<["heightmap" := VTexture (negb c)]> wu)))
    (<["tf_agent_to_world" := VObject sphere_matrixWorld]>
      (<["heightmap" := VTexture (negb c)]> au))
    (<["tf_water_to_world" := VObject plane_matrixWorld]>
      (<["agentPosition" := VObject sphere_position]> hu))
    (flip (write_target g (negb c) (heightmap_shader hu o' (target g c))))
    (tr ++ [RequestAnimationFrame;
            PerformanceNow now;
            MoveAgent (vx p') (vz p');
            Compute c (negb c);
            SetUniform Water "heightmap" (VTexture (negb c));
            CopyInto Water "cameraPos" cam;
            SetUniform Water "agentPosition" (VObject sphere_position);
            SetUniform Water "tf_agent_to_world" (VObject sphere_matrixWorld);
            SetUniform Heightmap "agentPosition" (VObject sphere_position);
            SetUniform Heightmap "tf_water_to_world" (VObject plane_matrixWorld);
            SetUniform Agent "heightmap" (VTexture (negb c));
            SetUniform Agent "tf_agent_to_world" (VObject sphere_matrixWorld);
            ConsoleLog (OVector3 p');
            ConsoleLog M;
            Draw (Some (VTexture (negb c))) (Some (VTexture (negb c)));
            StatsUpdate])).
Proof.
  intros Hready Hp Hcam HM c dt' angle p' o'.
  unfold animate, tick, stepAgent. run_scene. rewrite Hp. run_scene.
  fold dt' angle p' o'.
  erewrite (render_spec _ _ _ _ _ _ _ _ _ p' cam M).
  - unfold log. run_scene. rewrite <- !(assoc_L app). reflexivity.
  - eapply ready_move, Hready.
  - apply vector3_at_insert.
  - unfold o'. rewrite vector3_at_insert_ne by done. exact Hcam.
  - unfold o'. rewrite lookup_insert_ne by done. exact HM.
Qed.


(** ** The setup *)

Variable simplex_noise : R -> R -> R.

Lemma set_value_spec (key : string) (v : value) (u : gmap string value) :
  is_Some (u !! key) -> set_value key v u = Some (<[key := v]> u).
Proof. intros [w Hw]. unfold set_value. rewrite Hw. reflexivity. Qed.

Lemma has_key_is_Some (k : string) (u : gmap string value) :
  has_key k u = true -> is_Some (u !! k).
Proof. unfold has_key. destruct (u !! k); [eauto | discriminate]. Qed.

Lemma is_Some_union_r (k : string) (u1 u2 : gmap string value) :
  is_Some (u2 !! k) -> is_Some ((u1 ∪ u2) !! k).
Proof.
  intros [w Hw]. destruct (u1 !! k) as [w1|] eqn:H1.
  - exists w1. apply lookup_union_Some_l. exact H1.
  - exists w. rewrite lookup_union_r; assumption.
Qed.

Lemma is_Some_insert_keep (k k' : string) (v : value) (u : gmap string value) :
  is_Some (u !! k) -> is_Some (<[k' := v]> u !! k).
Proof.
  intros Hk. destruct (decide (k' = k)) as [->|Hne].
  - rewrite lookup_insert_eq. eauto.
  - rewrite lookup_insert_ne by done. exact Hk.
Qed.

Lemma setup_spec (e : env) :
  phong_ok e = true -> setup simplex_noise e = Some (after_setup simplex_noise e).
Proof.
  unfold phong_ok. rewrite !andb_true_iff.
  intros [[[Hd%has_key_is_Some Hs%has_key_is_Some] Hn%has_key_is_Some] Ho%has_key_is_Some].
  unfold setup, setWater.
  rewrite set_value_spec by (apply is_Some_union_r; assumption).
  cbn [mbind option_bind].
  rewrite set_value_spec
    by (apply is_Some_insert_keep, is_Some_union_r; assumption).
  cbn [mbind option_bind].
  rewrite set_value_spec
    by (do 2 apply is_Some_insert_keep; apply is_Some_union_r; assumption).
  cbn [mbind option_bind].
  rewrite set_value_spec
    by (do 3 apply is_Some_insert_keep; apply is_Some_union_r; assumption).
  cbn [mbind option_bind].
  unfold after_setup, setup_trace, setAgent, loaded.
  destruct (init_error e) as [error|]; run_scene; reflexivity.
Qed.

Lemma water_key (e : env) (k : string) (v : value) :
  ({[ "heightmap" := VNull;
      "envMap" := VBackground;
      "cameraPos" := VObject water_cameraPos;
      "reflectionStrength" := VNumber 0.6;
      "transparency" := VNumber 0.8;
      "agentPosition" := VNull;
      "tf_agent_to_world" := VNull ]} : gmap string value) !! k = Some v ->
  k <> "opacity" -> k <> "shininess" -> k <> "specular" -> k <> "diffuse" ->
  setup_water e !! k = Some v.
Proof.
  intros Hk H1 H2 H3 H4. unfold setup_water.
  rewrite !lookup_insert_ne by done.
  apply lookup_union_Some_l. exact Hk.
Qed.

Lemma after_setup_settled (e : env) :
  init_error e = None -> settled (after_setup simplex_noise e).
Proof.
  intros Hinit.
  split; cbn [after_setup objects waterUniforms agentUniforms heightmapUniforms gpuCompute];
    rewrite ?Hinit.
  - split; cbn [after_setup objects waterUniforms agentUniforms heightmapUniforms gpuCompute];
      rewrite ?Hinit.
    + reflexivity.
    + unfold setup_objects. find_object.
    + unfold setup_objects. find_object.
    + unfold setup_objects. find_object.
    + unfold setup_objects. find_object.
    + apply water_key; done.
    + repeat apply conj; eexists; apply water_key; done.
    + unfold simulation_uniforms. split.
      * rewrite lookup_insert_ne by done. rewrite lookup_insert_eq. eauto.
      * rewrite lookup_insert_eq. eauto.
    + unfold setup_agent. split; eexists; apply lookup_union_Some_l; reflexivity.
  - reflexivity.
  - unfold setup_objects. rewrite lookup_insert_eq. reflexivity.
  - left. apply water_key; done.
  - left. unfold setup_agent. apply lookup_union_Some_l. reflexivity.
Qed.


(** ** Frames keep the program settled *)

Lemma simulation_uniforms_rebound :
  <["tf_water_to_world" := VObject plane_matrixWorld]>
    (<["agentPosition" := VObject sphere_position]> simulation_uniforms)
  = simulation_uniforms.
Proof.
  rewrite (insert_id simulation_uniforms "agentPosition") by reflexivity.
  apply insert_id. reflexivity.
Qed.

Lemma animate_settled (now : R) (st : state) :
  settled st ->
  exists st',
    animate heightmap_shader now st = Some st'
    /\ settled st'
    /\ getCurrentRenderTarget (gpuCompute st')
       = negb (getCurrentRenderTarget (gpuCompute st)).
Proof.
  destruct st as [lt dt ca o wu au hu g tr].
  intros [Hready Hsim Hmouse _ _]; cbn [objects heightmapUniforms] in *.
  destruct (ready_objects _ _ _ _ _ _ _ _ _ Hready) as (p & cam & M & Hp & Hcam & HM).
  eexists. split; [apply (animate_spec now _ _ _ _ _ _ _ _ _ p cam M); assumption|].
  destruct Hready as [Ht _ _ _ _ Hcp (Hw1 & Hw2 & Hw3) (Hh1 & Hh2) (Ha1 & Ha2)];
    cbn [objects waterUniforms heightmapUniforms agentUniforms gpuCompute] in *.
  split; [|unfold getCurrentRenderTarget; cbn [gpuCompute]; apply current_after_step].
  split; cbn [objects waterUniforms heightmapUniforms agentUniforms gpuCompute].
  - split; cbn [objects waterUniforms heightmapUniforms agentUniforms gpuCompute].
    + rewrite targets_after_step. exact Ht.
    + rewrite updateMatrixWorld_vector3 by done.
      rewrite vector3_at_insert_ne by done. rewrite vector3_at_insert. eauto.
    + rewrite updateMatrixWorld_vector3 by done.
      rewrite !vector3_at_insert_ne by done. eauto.
    + rewrite updateMatrixWorld_plane; [eauto|].
      rewrite !lookup_insert_ne by done. eauto.
    + rewrite updateMatrixWorld_vector3 by done.
      rewrite vector3_at_insert. eauto.
    + rewrite !lookup_insert_ne by done. exact Hcp.
    + repeat apply conj.
      * rewrite !lookup_insert_ne by done. rewrite lookup_insert_eq. eauto.
      * rewrite lookup_insert_ne by done. rewrite lookup_insert_eq. eauto.
      * rewrite lookup_insert_eq. eauto.
    + split.
      * rewrite lookup_insert_ne by done. rewrite lookup_insert_eq. eauto.
      * rewrite lookup_insert_eq. eauto.
    + split.
      * rewrite lookup_insert_ne by done. rewrite lookup_insert_eq. eauto.
      * rewrite lookup_insert_eq. eauto.
  - rewrite Hsim. apply simulation_uniforms_rebound.
  - rewrite updateMatrixWorld_other by done.
    rewrite !lookup_insert_ne by done. exact Hmouse.
  - right. unfold getCurrentRenderTarget. rewrite current_after_step.
    rewrite !lookup_insert_ne by done. apply lookup_insert_eq.
  - right. unfold getCurrentRenderTarget. rewrite current_after_step.
    rewrite lookup_insert_ne by done. apply lookup_insert_eq.
Qed.

Lemma frames_snoc (nows : list R) (now : R) (st : state) :
  frames heightmap_shader (nows ++ [now]) st =
  frames heightmap_shader nows st ≫= animate heightmap_shader now.
Proof.
  revert st; induction nows as [|t nows IH]; intros st; cbn [app frames].
  - cbn [mbind option_bind].
    destruct (animate heightmap_shader now st); reflexivity.
  - destruct (animate heightmap_shader t st) as [st1|]; cbn [mbind option_bind].
    + apply IH.
    + reflexivity.
Qed.

(** Any number of frames runs to the end, and the cursor has flipped once
    per frame. *)
Lemma frames_settled (nows : list R) (st : state) :
  settled st ->
  exists st',
    frames heightmap_shader nows st = Some st'
    /\ settled st'
    /\ getCurrentRenderTarget (gpuCompute st')
       = xorb (Nat.odd (length nows)) (getCurrentRenderTarget (gpuCompute st)).
Proof.
  revert st; induction nows as [|t nows IH]; intros st Hst.
  - exists st. split; [reflexivity|]. split; [exact Hst|].
    cbn [length Nat.odd Nat.even negb].
    destruct (getCurrentRenderTarget (gpuCompute st)); reflexivity.
  - destruct (animate_settled t st Hst) as (st1 & Hrun & Hst1 & Hcur).
    destruct (IH st1 Hst1) as (st' & Hrest & Hst' & Hcur').
    exists st'. cbn [frames]. rewrite Hrun. cbn [mbind option_bind].
    split; [exact Hrest|]. split; [exact Hst'|].
    rewrite Hcur', Hcur. cbn [length]. rewrite Nat.odd_succ, <- Nat.negb_odd.
    destruct (Nat.odd (length nows)), (getCurrentRenderTarget (gpuCompute st)); reflexivity.
Qed.

Lemma sample_ready : ready sample_state.
Proof.
  split; cbn [sample_state objects waterUniforms agentUniforms heightmapUniforms gpuCompute].
  - reflexivity.
  - find_object.
  - find_object.
  - find_object.
  - find_object.
  - reflexivity.
  - repeat apply conj; eexists; reflexivity.
  - repeat apply conj; eexists; reflexivity.
  - repeat apply conj; eexists; reflexivity.
Qed.

End SceneFacts.

(** * The agent's kinematic step *)

Section AgentFacts.

Local Open Scope R_scope.
Import Scene.

(** C10: for every elapsed time [dt], [stepAgent] leaves the agent's y
    coordinate as it was and puts its (x, z) on the circle of radius
    [BOUNDS / 4 = 128] around the origin, at the new angle, which is the
    angle of the call before advanced by [PI * dt], that is by pi radians
    per second; on the first call, when no angle is stored yet, it is
    [PI * dt]. *)
Theorem stepAgent_circle (dt : R) (st : state) (p : Vector3) :
  vector3_at sphere_position (objects st) = Some p ->
  exists st' p' a',
    stepAgent dt st = Some st'
    /\ vector3_at sphere_position (objects st') = Some p'
    /\ vy p' = vy p
    /\ BOUNDS / 4 = 128
    /\ vx p' ^ 2 + vz p' ^ 2 = 128 ^ 2
    /\ currentAngle st' = Some a'
    /\ (forall a, currentAngle st = Some a -> a' = a + PI * dt)
    /\ (currentAngle st = None -> a' = PI * dt)
    /\ vx p' = 128 * cos a'
    /\ vz p' = 128 * sin a'.
Proof.
  intros Hp. unfold stepAgent. rewrite Hp. cbn [mbind option_bind].
  assert (Hradius : BOUNDS / 4 = 128) by (unfold BOUNDS; lra).
  assert (Hangle : or_zero (currentAngle st) + 2 * PI * (BOUNDS / 4) / 2 * dt / (BOUNDS / 4)
                   = or_zero (currentAngle st) + PI * dt)
    by (rewrite Hradius; lra).
  rewrite Hangle, Hradius.
  set (a' := or_zero (currentAngle st) + PI * dt).
  eexists. exists (V3 (128 * cos a') (vy p) (128 * sin a')), a'.
  split; [reflexivity|].
  cbn [log objects currentAngle vx vy vz].
  split; [apply vector3_at_insert|].
  split; [reflexivity|].
  split; [reflexivity|].
  split; [pose proof (sin2_cos2 a') as Hsc; unfold Rsqr in Hsc; nra|].
  split; [reflexivity|].
  split; [intros a Ha; unfold a'; rewrite Ha; reflexivity|].
  split; [intros Ha; unfold a'; rewrite Ha; unfold or_zero; cbn [default]; lra|].
  split; reflexivity.
Qed.

Lemma stepAgent_circle_witness :
  vector3_at sphere_position (objects moved_state)
  = Some (V3 (128 * cos (PI * 0.016)) 0 (128 * sin (PI * 0.016)))
  /\ exists st' p' a',
    stepAgent 0.017 moved_state = Some st'
    /\ vector3_at sphere_position (objects st') = Some p'
    /\ vy p' = vy (V3 (128 * cos (PI * 0.016)) 0 (128 * sin (PI * 0.016)))
    /\ BOUNDS / 4 = 128
    /\ vx p' ^ 2 + vz p' ^ 2 = 128 ^ 2
    /\ currentAngle st' = Some a'
    /\ (forall a, currentAngle moved_state = Some a -> a' = a + PI * 0.017)
    /\ (currentAngle moved_state = None -> a' = PI * 0.017)
    /\ vx p' = 128 * cos a'
    /\ vz p' = 128 * sin a'.
Proof.
  split; [reflexivity|].
  apply (stepAgent_circle 0.017 moved_state
           (V3 (128 * cos (PI * 0.016)) 0 (128 * sin (PI * 0.016)))).
  reflexivity.
Defined.

End AgentFacts.

(** * The order of operations within a frame *)

Section FrameOrder.

Local Open Scope R_scope.
Import Scene.

Variable heightmap_shader :
  gmap string value -> gmap loc object -> list R -> list R.

(** C1, as amended: a frame requests the next one, reads the clock, moves
    the agent, runs the compute pass, and only then writes the uniforms
    (the water's, then the simulation's ['agentPosition'] and
    ['tf_water_to_world'], then the agent's), logs, and draws.  The pass of
    the frame is issued with the store in which the agent already stands
    where this frame put it, which is what ['agentPosition'] refers to when
    it is bound to the sphere's position object. *)
Theorem frame_order (now : R) (st : state) :
  ready st ->
  exists st' pre pos cam M,
    let c := getCurrentRenderTarget (gpuCompute st) in
    stepAgent (deltaTime (tick now st)) (tick now st) = Some pre
    /\ animate heightmap_shader now st = Some st'
    /\ trace st' = trace st ++
         [RequestAnimationFrame;
          PerformanceNow now;
          MoveAgent (vx pos) (vz pos);
          Compute c (negb c);
          SetUniform Water "heightmap" (VTexture (negb c));
          CopyInto Water "cameraPos" cam;
          SetUniform Water "agentPosition" (VObject sphere_position);
          SetUniform Water "tf_agent_to_world" (VObject sphere_matrixWorld);
          SetUniform Heightmap "agentPosition" (VObject sphere_position);
          SetUniform Heightmap "tf_water_to_world" (VObject plane_matrixWorld);
          SetUniform Agent "heightmap" (VTexture (negb c));
          SetUniform Agent "tf_agent_to_world" (VObject sphere_matrixWorld);
          ConsoleLog (OVector3 pos);
          ConsoleLog M;
          Draw (Some (VTexture (negb c))) (Some (VTexture (negb c)));
          StatsUpdate]
    /\ target (gpuCompute st') (negb c)
       = heightmap_shader (heightmapUniforms st) (objects pre) (target (gpuCompute st) c)
    /\ vector3_at sphere_position (objects pre) = Some pos
    /\ (heightmapUniforms st !! "agentPosition" = Some (VObject sphere_position) ->
        agent_input pre = Some pos).
Proof.
  destruct st as [lt dt ca o wu au hu g tr]. intros Hready.
  destruct (ready_objects _ _ _ _ _ _ _ _ _ Hready) as (p & cam & M & Hp & Hcam & HM).
  pose proof (animate_spec heightmap_shader now _ _ _ _ _ _ _ _ _ p cam M
                Hready Hp Hcam HM) as Hrun.
  cbv zeta in Hrun.
  set (angle := or_zero ca + 2 * PI * (BOUNDS / 4) / 2 * ((now - lt) / 1000) / (BOUNDS / 4)) in *.
  set (pos := V3 (BOUNDS / 4 * cos angle) (vy p) (BOUNDS / 4 * sin angle)) in *.
  eexists. eexists. exists pos, cam, M. cbv zeta.
  split.
  { unfold stepAgent, tick. cbn [log deltaTime objects lastTimestamp currentAngle].
    rewrite Hp. cbn [mbind option_bind]. fold angle. fold pos. reflexivity. }
  split; [exact Hrun|].
  unfold getCurrentRenderTarget.
  cbn [log trace gpuCompute objects heightmapUniforms waterUniforms agentUniforms
       lastTimestamp deltaTime currentAngle].
  split; [reflexivity|].
  split.
  { destruct g as [t0 t1 [] ht]; reflexivity. }
  split; [apply vector3_at_insert|].
  intros Hbound. unfold agent_input. cbn [log heightmapUniforms objects].
  rewrite Hbound. apply vector3_at_insert.
Qed.

End FrameOrder.

Section FrameOrderWitness.

Local Open Scope R_scope.
Import Scene.

Lemma frame_order_witness :
  ready sample_state
  /\ exists st' pre pos cam M,
    let c := getCurrentRenderTarget (gpuCompute sample_state) in
    stepAgent (deltaTime (tick 16 sample_state)) (tick 16 sample_state) = Some pre
    /\ animate sample_shader 16 sample_state = Some st'
    /\ trace st' = trace sample_state ++
         [RequestAnimationFrame;
          PerformanceNow 16;
          MoveAgent (vx pos) (vz pos);
          Compute c (negb c);
          SetUniform Water "heightmap" (VTexture (negb c));
          CopyInto Water "cameraPos" cam;
          SetUniform Water "agentPosition" (VObject sphere_position);
          SetUniform Water "tf_agent_to_world" (VObject sphere_matrixWorld);
          SetUniform Heightmap "agentPosition" (VObject sphere_position);
          SetUniform Heightmap "tf_water_to_world" (VObject plane_matrixWorld);
          SetUniform Agent "heightmap" (VTexture (negb c));
          SetUniform Agent "tf_agent_to_world" (VObject sphere_matrixWorld);
          ConsoleLog (OVector3 pos);
          ConsoleLog M;
          Draw (Some (VTexture (negb c))) (Some (VTexture (negb c)));
          StatsUpdate]
    /\ target (gpuCompute st') (negb c)
       = sample_shader (heightmapUniforms sample_state) (objects pre)
                       (target (gpuCompute sample_state) c)
    /\ vector3_at sphere_position (objects pre) = Some pos
    /\ (heightmapUniforms sample_state !! "agentPosition" = Some (VObject sphere_position) ->
        agent_input pre = Some pos).
Proof.
  split.
  - exact sample_ready.
  - apply (frame_order sample_shader 16 sample_state). exact sample_ready.
Defined.

End FrameOrderWitness.

(** C1, as stated, fails on a frame from [sample_state]: the operations do
    not go through the stages in the listed order, the compute pass being
    operation 3 of the frame and the first write to a simulation uniform
    operation 8. *)
Lemma frame_order_counterexample :
  exists st' evs,
    Scene.animate Scene.sample_shader 16 Scene.sample_state = Some st'
    /\ Scene.trace st' = Scene.trace Scene.sample_state ++ evs
    /\ Scene.in_listed_order evs = false
    /\ Scene.index_of Scene.is_compute evs = Some 3%nat
    /\ Scene.index_of Scene.is_source_update evs = Some 8%nat.
Proof.
  eexists. eexists. split.
  - unfold Scene.sample_state.
    apply (animate_spec Scene.sample_shader 16 _ _ _ _ _ _ _ _ _
             (Scene.V3 0 0 0) (Scene.V3 350 400 (-500))
             (Scene.OMatrix4 Scene.identity4) sample_ready); reflexivity.
  - cbn [Scene.trace Scene.sample_state].
    repeat apply conj; reflexivity.
Qed.

(** * What a frame hands to the simulation *)

Section Transforms.

Local Open Scope R_scope.
Import Scene.

Variable heightmap_shader :
  gmap string value -> gmap loc object -> list R -> list R.

(** The agent's point on its circle is never the far-away point. *)
Lemma circle_not_sentinel (a y : R) :
  ~ sentinel (V3 (BOUNDS / 4 * cos a) y (BOUNDS / 4 * sin a)).
Proof.
  intros [Hx _]. cbn [vx] in Hx. unfold BOUNDS in Hx.
  pose proof (COS_bound a) as [Hlo Hhi]. lra.
Qed.

(** X16: a frame makes no test on the transforms.  Whatever the two world
    matrices in the store are, the simulation pass is issued with the agent's
    position on its circle, never with the far-away point, and with the
    matrices as they stand; afterwards ['agentPosition'] and
    ['tf_water_to_world'] refer to the sphere's position and the plane's
    world matrix, and ['mousePos'] is as before. *)
Theorem transform_passed_unchecked (now : R) (st : state) :
  ready st ->
  heightmapUniforms st !! "agentPosition" = Some (VObject sphere_position) ->
  exists pre st' v,
    stepAgent (deltaTime (tick now st)) (tick now st) = Some pre
    /\ animate heightmap_shader now st = Some st'
    /\ agent_input pre = Some v
    /\ ~ sentinel v
    /\ heightmapUniforms pre = heightmapUniforms st
    /\ objects pre !! plane_matrixWorld = objects st !! plane_matrixWorld
    /\ objects pre !! sphere_matrixWorld = objects st !! sphere_matrixWorld
    /\ heightmapUniforms st' !! "agentPosition" = Some (VObject sphere_position)
    /\ heightmapUniforms st' !! "tf_water_to_world" = Some (VObject plane_matrixWorld)
    /\ heightmapUniforms st' !! "mousePos" = heightmapUniforms st !! "mousePos".
Proof.
  destruct st as [lt dt ca o wu au hu g tr]. intros Hready Hbound.
  cbn [heightmapUniforms] in Hbound.
  destruct (ready_objects _ _ _ _ _ _ _ _ _ Hready) as (p & cam & M & Hp & Hcam & HM).
  pose proof (animate_spec heightmap_shader now _ _ _ _ _ _ _ _ _ p cam M
                Hready Hp Hcam HM) as Hrun.
  cbv zeta in Hrun.
  set (angle := or_zero ca + 2 * PI * (BOUNDS / 4) / 2 * ((now - lt) / 1000) / (BOUNDS / 4)) in *.
  eexists. eexists. exists (V3 (BOUNDS / 4 * cos angle) (vy p) (BOUNDS / 4 * sin angle)).
  split.
  { unfold stepAgent, tick. cbn [log deltaTime objects lastTimestamp currentAngle].
    rewrite Hp. cbn [mbind option_bind]. fold angle. reflexivity. }
  split; [exact Hrun|].
  unfold agent_input.
  cbn [log objects heightmapUniforms].
  rewrite Hbound, vector3_at_insert.
  split; [reflexivity|].
  split; [apply circle_not_sentinel|].
  split; [reflexivity|].
  repeat apply conj.
  - rewrite lookup_insert_ne by done. reflexivity.
  - rewrite lookup_insert_ne by done. reflexivity.
  - rewrite lookup_insert_ne by done. apply lookup_insert_eq.
  - apply lookup_insert_eq.
  - rewrite !lookup_insert_ne by done. reflexivity.
Qed.

End Transforms.

Section TransformsWitness.

Local Open Scope R_scope.
Import Scene.

Lemma transform_passed_unchecked_witness :
  ready sample_state
  /\ heightmapUniforms sample_state !! "agentPosition" = Some (VObject sphere_position)
  /\ exists pre st' v,
    stepAgent (deltaTime (tick 16 sample_state)) (tick 16 sample_state) = Some pre
    /\ animate sample_shader 16 sample_state = Some st'
    /\ agent_input pre = Some v
    /\ ~ sentinel v
    /\ heightmapUniforms pre = heightmapUniforms sample_state
    /\ objects pre !! plane_matrixWorld = objects sample_state !! plane_matrixWorld
    /\ objects pre !! sphere_matrixWorld = objects sample_state !! sphere_matrixWorld
    /\ heightmapUniforms st' !! "agentPosition" = Some (VObject sphere_position)
    /\ heightmapUniforms st' !! "tf_water_to_world" = Some (VObject plane_matrixWorld)
    /\ heightmapUniforms st' !! "mousePos" = heightmapUniforms sample_state !! "mousePos".
Proof.
  split; [exact sample_ready|].
  split; [reflexivity|].
  apply (transform_passed_unchecked sample_shader 16 sample_state).
  - exact sample_ready.
  - reflexivity.
Defined.

End TransformsWitness.

(** * The two heightmap targets *)

Section PingPong.

Local Open Scope R_scope.
Import Scene.

Variable heightmap_shader :
  gmap string value -> gmap loc object -> list R -> list R.
Variable simplex_noise : R -> R -> R.

(** What one more frame does to the two targets of a settled state. *)
Lemma frame_targets (now : R) (st : state) :
  settled st ->
  exists pre st' evs,
    let c := getCurrentRenderTarget (gpuCompute st) in
    stepAgent (deltaTime (tick now st)) (tick now st) = Some pre
    /\ animate heightmap_shader now st = Some st'
    /\ getCurrentRenderTarget (gpuCompute st') = negb c
    /\ target (gpuCompute st') (negb c)
       = heightmap_shader (heightmapUniforms pre) (objects pre) (target (gpuCompute st) c)
    /\ target (gpuCompute st') c = target (gpuCompute st) c
    /\ waterUniforms st' !! "heightmap" = Some (VTexture (negb c))
    /\ agentUniforms st' !! "heightmap" = Some (VTexture (negb c))
    /\ trace st' = trace st ++ evs
    /\ passes evs = [(c, negb c)]
    /\ draws evs = [(Some (VTexture (negb c)), Some (VTexture (negb c)))]
    /\ index_of is_compute evs = Some 3%nat
    /\ index_of is_draw evs = Some 14%nat
    /\ waterUniforms pre !! "heightmap" <> Some (VTexture (negb c))
    /\ agentUniforms pre !! "heightmap" <> Some (VTexture (negb c)).
Proof.
  destruct st as [lt dt ca o wu au hu g tr].
  intros [Hready _ _ Hwater Hagent].
  cbn [gpuCompute waterUniforms agentUniforms] in Hwater, Hagent.
  destruct (ready_objects _ _ _ _ _ _ _ _ _ Hready) as (p & cam & M & Hp & Hcam & HM).
  pose proof (animate_spec heightmap_shader now _ _ _ _ _ _ _ _ _ p cam M
                Hready Hp Hcam HM) as Hrun.
  cbv zeta in Hrun.
  set (angle := or_zero ca + 2 * PI * (BOUNDS / 4) / 2 * ((now - lt) / 1000) / (BOUNDS / 4)) in *.
  eexists. eexists. eexists. cbv zeta.
  split.
  { unfold stepAgent, tick. cbn [log deltaTime objects lastTimestamp currentAngle].
    rewrite Hp. cbn [mbind option_bind]. fold angle. reflexivity. }
  split; [exact Hrun|].
  unfold bound_to_current, getCurrentRenderTarget in *.
  cbn [log trace gpuCompute objects heightmapUniforms waterUniforms agentUniforms].
  split; [apply current_after_step|].
  split; [destruct g as [t0 t1 [] ht]; reflexivity|].
  split; [destruct g as [t0 t1 [] ht]; reflexivity|].
  split; [rewrite !lookup_insert_ne by done; apply lookup_insert_eq|].
  split; [rewrite lookup_insert_ne by done; apply lookup_insert_eq|].
  split; [reflexivity|].
  split; [reflexivity|].
  split; [reflexivity|].
  split; [reflexivity|].
  split; [reflexivity|].
  split.
  - intros Heq. destruct Hwater as [Hw | Hw]; rewrite Hw in Heq; [discriminate|].
    destruct (currentTextureIndex g); cbn [negb] in Heq; discriminate.
  - intros Heq. destruct Hagent as [Ha | Ha]; rewrite Ha in Heq; [discriminate|].
    destruct (currentTextureIndex g); cbn [negb] in Heq; discriminate.
Qed.

(** C5: after a setup in which the compute renderer started and
    [N >= 1] frames, the target that the pass of frame [N] wrote holds its
    output; it is the one [getCurrentRenderTarget] returns (target
    [N mod 2]) and the one the water and agent uniforms and the draw call of
    the frame use.  The other target is the one the pass read, left as it
    was.  While the pass is issued, neither rendered material is bound to
    the target being written, and the draw call comes after the pass. *)
Theorem ping_pong (e : env) (nows : list R) (now : R) :
  phong_ok e = true ->
  init_error e = None ->
  exists st0 st pre st' evs,
    let c := getCurrentRenderTarget (gpuCompute st) in
    setup simplex_noise e = Some st0
    /\ target (gpuCompute st0) (getCurrentRenderTarget (gpuCompute st0))
       = Noise.fillTexture simplex_noise createTexture
    /\ frames heightmap_shader nows st0 = Some st
    /\ stepAgent (deltaTime (tick now st)) (tick now st) = Some pre
    /\ frames heightmap_shader (nows ++ [now]) st0 = Some st'
    /\ getCurrentRenderTarget (gpuCompute st') = negb c
    /\ getCurrentRenderTarget (gpuCompute st') = Nat.odd (S (length nows))
    /\ target (gpuCompute st') (negb c)
       = heightmap_shader (heightmapUniforms pre) (objects pre) (target (gpuCompute st) c)
    /\ target (gpuCompute st') c = target (gpuCompute st) c
    /\ waterUniforms st' !! "heightmap" = Some (VTexture (negb c))
    /\ agentUniforms st' !! "heightmap" = Some (VTexture (negb c))
    /\ trace st' = trace st ++ evs
    /\ passes evs = [(c, negb c)]
    /\ draws evs = [(Some (VTexture (negb c)), Some (VTexture (negb c)))]
    /\ index_of is_compute evs = Some 3%nat
    /\ index_of is_draw evs = Some 14%nat
    /\ waterUniforms pre !! "heightmap" <> Some (VTexture (negb c))
    /\ agentUniforms pre !! "heightmap" <> Some (VTexture (negb c)).
Proof.
  intros Hphong Hinit.
  pose proof (setup_spec simplex_noise e Hphong) as Hsetup.
  pose proof (after_setup_settled simplex_noise e Hinit) as Hst0.
  destruct (frames_settled heightmap_shader nows _ Hst0) as (st & Hrun & Hst & Hcur).
  destruct (frame_targets now st Hst)
    as (pre & st' & evs & Hpre & Hframe & Hflip & Hout & Hkeep & Hw & Ha & Htr & Hrest).
  exists (after_setup simplex_noise e), st, pre, st', evs. cbv zeta.
  split; [exact Hsetup|].
  split; [cbn [after_setup gpuCompute]; rewrite Hinit; reflexivity|].
  split; [exact Hrun|].
  split; [exact Hpre|].
  split; [rewrite frames_snoc, Hrun; exact Hframe|].
  split; [exact Hflip|].
  split.
  { rewrite Hflip, Hcur. cbn [after_setup gpuCompute]. rewrite Hinit.
    cbn [getCurrentRenderTarget currentTextureIndex].
    rewrite Nat.odd_succ, <- Nat.negb_odd. destruct (Nat.odd (length nows)); reflexivity. }
  split; [exact Hout|].
  split; [exact Hkeep|].
  split; [exact Hw|].
  split; [exact Ha|].
  split; [exact Htr|].
  exact Hrest.
Qed.

End PingPong.

Section PingPongWitness.

Local Open Scope R_scope.
Import Scene.

Lemma sample_phong_ok : phong_ok sample_env = true.
Proof. reflexivity. Qed.

Lemma ping_pong_witness :
  phong_ok sample_env = true
  /\ init_error sample_env = None
  /\ exists st0 st pre st' evs,
    let c := getCurrentRenderTarget (gpuCompute st) in
    setup sample_noise sample_env = Some st0
    /\ target (gpuCompute st0) (getCurrentRenderTarget (gpuCompute st0))
       = Noise.fillTexture sample_noise createTexture
    /\ frames sample_shader [16; 33] st0 = Some st
    /\ stepAgent (deltaTime (tick 50 st)) (tick 50 st) = Some pre
    /\ frames sample_shader ([16; 33] ++ [50]) st0 = Some st'
    /\ getCurrentRenderTarget (gpuCompute st') = negb c
    /\ getCurrentRenderTarget (gpuCompute st') = Nat.odd (S (length [16; 33]))
    /\ target (gpuCompute st') (negb c)
       = sample_shader (heightmapUniforms pre) (objects pre) (target (gpuCompute st) c)
    /\ target (gpuCompute st') c = target (gpuCompute st) c
    /\ waterUniforms st' !! "heightmap" = Some (VTexture (negb c))
    /\ agentUniforms st' !! "heightmap" = Some (VTexture (negb c))
    /\ trace st' = trace st ++ evs
    /\ passes evs = [(c, negb c)]
    /\ draws evs = [(Some (VTexture (negb c)), Some (VTexture (negb c)))]
    /\ index_of is_compute evs = Some 3%nat
    /\ index_of is_draw evs = Some 14%nat
    /\ waterUniforms pre !! "heightmap" <> Some (VTexture (negb c))
    /\ agentUniforms pre !! "heightmap" <> Some (VTexture (negb c)).
Proof.
  split; [exact sample_phong_ok|].
  split; [reflexivity|].
  apply (ping_pong sample_shader sample_noise sample_env [16; 33] 50).
  - exact sample_phong_ok.
  - reflexivity.
Defined.

End PingPongWitness.

(** * The simulation parameters *)

Section Parameters.

Local Open Scope R_scope.
Import Scene.

Variable heightmap_shader :
  gmap string value -> gmap loc object -> list R -> list R.
Variable simplex_noise : R -> R -> R.



(** ** Setup when the compute renderer fails to start *)

(** C4, as amended: when [gpuCompute.init()] returns an error, [setWater]
    passes it to [console.error], once, and the setup goes on: ground,
    walls, resize, event registration, and then the first frame.  Nothing is
    retried. *)
Theorem setup_logs_and_continues (e : env) (error : string) (now : R) :
  phong_ok e = true ->
  init_error e = Some error ->
  exists st,
    setup simplex_noise e = Some st
    /\ trace st =
       [SetLights; SetControls; SetAxesHelper; SetAgent; SetWater;
        ConsoleError error;
        SetGround; SetWalls; HandleResize; Events]
    /\ init heightmap_shader simplex_noise e now = animate heightmap_shader now st.
Proof.
  intros Hphong Herror.
  pose proof (setup_spec simplex_noise e Hphong) as Hsetup.
  exists (after_setup simplex_noise e).
  split; [exact Hsetup|].
  split.
  - cbn [after_setup trace]. unfold setup_trace. rewrite Herror. reflexivity.
  - unfold init. rewrite Hsetup. reflexivity.
Qed.

End Parameters.

Section ParametersWitness.

Local Open Scope R_scope.
Import Scene.


Lemma setup_logs_and_continues_witness :
  phong_ok failing_env = true
  /\ init_error failing_env = Some "No OES_texture_float support"
  /\ exists st,
    setup sample_noise failing_env = Some st
    /\ trace st =
       [SetLights; SetControls; SetAxesHelper; SetAgent; SetWater;
        ConsoleError "No OES_texture_float support";
        SetGround; SetWalls; HandleResize; Events]
    /\ init sample_shader sample_noise failing_env 16 = animate sample_shader 16 st.
Proof.
  split; [reflexivity|]. split; [reflexivity|].
  apply (setup_logs_and_continues sample_shader sample_noise failing_env
           "No OES_texture_float support" 16); reflexivity.
Defined.

(** C4, as stated, fails on [failing_env]: [gpuCompute.init()] reports an
    error and the setup is not aborted; the ground and the walls are set up
    after the diagnostic, and [init] goes on to the first frame. *)
Lemma setup_abort_counterexample :
  exists st,
    init_error failing_env = Some "No OES_texture_float support"
    /\ setup sample_noise failing_env = Some st
    /\ trace st =
       [SetLights; SetControls; SetAxesHelper; SetAgent; SetWater;
        ConsoleError "No OES_texture_float support";
        SetGround; SetWalls; HandleResize; Events]
    /\ init sample_shader sample_noise failing_env 16 = animate sample_shader 16 st.
Proof.
  pose proof (setup_spec sample_noise failing_env eq_refl) as Hsetup.
  exists (after_setup sample_noise failing_env).
  split; [reflexivity|].
  split; [exact Hsetup|].
  split; [reflexivity|].
  unfold init. rewrite Hsetup. reflexivity.
Qed.

End ParametersWitness.

(** * More on the noise field generator *)

Section FillAnyLength.

Local Open Scope R_scope.

Variable simplex_noise : R -> R -> R.

(** The four stores of a cell on an array of any length: the part of the
    cell that fits is written, the rest is dropped. *)
Lemma write_cell_gen (h : R) (done rest : list R) :
  Noise.write_cell h (done ++ rest) (length done) =
  done ++ take (length rest) [h; h; 0; 1] ++ drop 4 rest.
Proof.
  unfold Noise.write_cell.
  rewrite !insert_app_r_alt by lia.
  rewrite lookup_app_r by lia.
  replace (length done + 0 - length done)%nat with 0%nat by lia.
  replace (length done + 1 - length done)%nat with 1%nat by lia.
  replace (length done + 2 - length done)%nat with 2%nat by lia.
  replace (length done + 3 - length done)%nat with 3%nat by lia.
  destruct rest as [|a [|b [|c [|d rest]]]]; cbn; rewrite ?take_nil; reflexivity.
Qed.

(** Once the offset is past the end, the inner loop changes nothing. *)
Lemma fill_cells_past (W j n a p : nat) (pixels : list R) :
  (length pixels <= p)%nat ->
  fold_left (Noise.fill_cell simplex_noise W j) (seq a n) (pixels, p) =
  (pixels, (p + 4 * n)%nat).
Proof.
  revert a p; induction n as [|n IH]; intros a p Hp.
  - cbn. rewrite Nat.add_0_r. reflexivity.
  - cbn [seq fold_left Noise.fill_cell].
    rewrite write_cell_short by assumption.
    rewrite IH by lia. f_equal. lia.
Qed.

Lemma fill_cells_gen (W j n a : nat) (done rest : list R) :
  fold_left (Noise.fill_cell simplex_noise W j) (seq a n) (done ++ rest, length done) =
  (done ++ take (length rest) (flat_map (Noise.cell simplex_noise W j) (seq a n))
        ++ drop (4 * n) rest,
   (length done + 4 * n)%nat).
Proof.
  revert a done rest; induction n as [|n IH]; intros a done rest.
  - cbn. rewrite take_nil, Nat.add_0_r. reflexivity.
  - cbn [seq fold_left Noise.fill_cell flat_map].
    rewrite write_cell_gen.
    change [Noise.noise simplex_noise (Noise.coord W a) (Noise.coord W j);
            Noise.noise simplex_noise (Noise.coord W a) (Noise.coord W j); 0; 1]
      with (Noise.cell simplex_noise W j a).
    destruct (le_lt_dec 4 (length rest)) as [Hge|Hlt].
    + rewrite (take_ge (Noise.cell simplex_noise W j a)) by (rewrite length_cell; lia).
      replace (length done + 4)%nat
        with (length (done ++ Noise.cell simplex_noise W j a))
        by (rewrite length_app, length_cell; reflexivity).
      rewrite (assoc_L app done).
      rewrite IH.
      rewrite length_app, length_cell, length_drop, drop_drop.
      rewrite take_app_ge by (rewrite length_cell; lia).
      rewrite length_cell. rewrite <- !(assoc_L app).
      f_equal; [|lia].
      do 3 f_equal.
      replace (4 * S n)%nat with (4 + 4 * n)%nat by lia. reflexivity.
    + rewrite (drop_ge rest 4) by lia. rewrite app_nil_r.
      rewrite fill_cells_past
        by (rewrite length_app, length_take, length_cell; lia).
      rewrite take_app_le by (rewrite length_cell; lia).
      rewrite (drop_ge rest) by lia. rewrite app_nil_r.
      f_equal. lia.
Qed.

Lemma fill_rows_past (W n a p : nat) (pixels : list R) :
  (length pixels <= p)%nat ->
  fold_left (Noise.fill_row simplex_noise W) (seq a n) (pixels, p) =
  (pixels, (p + 4 * W * n)%nat).
Proof.
  revert a p; induction n as [|n IH]; intros a p Hp.
  - cbn. rewrite Nat.mul_0_r, Nat.add_0_r. reflexivity.
  - cbn [seq fold_left]. unfold Noise.fill_row at 2.
    rewrite fill_cells_past by assumption.
    rewrite IH by lia. rewrite Nat.mul_succ_r. f_equal. lia.
Qed.

Lemma fill_rows_gen (W n a : nat) (done rest : list R) :
  fold_left (Noise.fill_row simplex_noise W) (seq a n) (done ++ rest, length done) =
  (done ++ take (length rest) (flat_map (Noise.row simplex_noise W) (seq a n))
        ++ drop (4 * W * n) rest,
   (length done + 4 * W * n)%nat).
Proof.
  revert a done rest; induction n as [|n IH]; intros a done rest.
  - cbn. rewrite take_nil, Nat.mul_0_r, Nat.add_0_r. reflexivity.
  - rewrite Nat.mul_succ_r.
    cbn [seq fold_left flat_map]. unfold Noise.fill_row at 2.
    rewrite fill_cells_gen. fold (Noise.row simplex_noise W a).
    destruct (le_lt_dec (4 * W) (length rest)) as [Hge|Hlt].
    + rewrite (take_ge (Noise.row simplex_noise W a)) by (rewrite length_row; lia).
      replace (length done + 4 * W)%nat
        with (length (done ++ Noise.row simplex_noise W a))
        by (rewrite length_app, length_row; reflexivity).
      rewrite (assoc_L app done).
      rewrite IH.
      rewrite length_app, length_row, length_drop, drop_drop.
      rewrite take_app_ge by (rewrite length_row; lia).
      rewrite length_row. rewrite <- !(assoc_L app).
      f_equal; [|lia].
      do 3 f_equal. rewrite (Nat.add_comm (4 * W)). reflexivity.
    + rewrite (drop_ge rest (4 * W)) by lia. rewrite app_nil_r.
      rewrite fill_rows_past
        by (rewrite length_app, length_take, length_row; lia).
      rewrite take_app_le by (rewrite length_row; lia).
      rewrite (drop_ge rest) by lia. rewrite app_nil_r.
      f_equal. lia.
Qed.

Lemma fillTexture_overlay (pixels : list R) :
  Noise.fillTexture simplex_noise pixels =
  take (length pixels) (Noise.texels simplex_noise WIDTH)
  ++ drop (4 * WIDTH * WIDTH) pixels.
Proof.
  unfold Noise.fillTexture, Noise.fillTexture_w.
  pose proof (fill_rows_gen WIDTH WIDTH 0 [] pixels) as Hrows.
  cbn [app length] in Hrows. rewrite Hrows. reflexivity.
Qed.

(** X1: on a data array of any length, [fillTexture] overwrites the slots
    that belong to the [WIDTH] by [WIDTH] cells and exist, drops the stores
    past the end, and leaves what lies beyond the last cell as it was.  The
    length never changes, and an empty array stays empty. *)
Theorem fillTexture_any_length (pixels : list R) :
  Noise.fillTexture simplex_noise pixels =
    take (length pixels) (Noise.texels simplex_noise WIDTH)
    ++ drop (4 * WIDTH * WIDTH) pixels
  /\ length (Noise.fillTexture simplex_noise pixels) = length pixels
  /\ Noise.fillTexture simplex_noise [] = [].
Proof.
  split; [apply fillTexture_overlay|]. split.
  - rewrite fillTexture_overlay, length_app, length_take, length_drop, length_texels.
    lia.
  - rewrite fillTexture_overlay. reflexivity.
Qed.

(** X2: filling a texture twice is the same as filling it once, whatever
    its length. *)
Theorem fillTexture_idempotent (pixels : list R) :
  Noise.fillTexture simplex_noise (Noise.fillTexture simplex_noise pixels) =
  Noise.fillTexture simplex_noise pixels.
Proof.
  pose proof (fillTexture_overlay pixels) as Hov.
  pose proof (fillTexture_overlay (Noise.fillTexture simplex_noise pixels)) as Hov2.
  pose proof (length_texels simplex_noise WIDTH) as HT.
  remember (Noise.fillTexture simplex_noise pixels) as F eqn:HF.
  remember (Noise.texels simplex_noise WIDTH) as T eqn:HeqT.
  remember (4 * WIDTH * WIDTH)%nat as n eqn:Hn.
  clear HF HeqT Hn.
  assert (Hlen : length F = length pixels).
  { rewrite Hov, length_app, length_take, length_drop. lia. }
  rewrite Hov2, Hlen. rewrite Hov at 2. f_equal.
  rewrite Hov.
  destruct (le_lt_dec (length pixels) n) as [Hle|Hgt].
  - rewrite !drop_ge; [reflexivity | lia |].
    rewrite length_app, length_take, length_drop. lia.
  - rewrite (take_ge T) by lia. rewrite drop_app_length'; [reflexivity | lia].
Qed.

End FillAnyLength.

Section NoiseBound.

Local Open Scope R_scope.

Variable simplex_noise : R -> R -> R.

Lemma amplitude_pos (i : nat) : 0 < Noise.amplitude i.
Proof.
  induction i as [|i IH]; cbn [Noise.amplitude].
  - lra.
  - pose proof (pos_INR i). nra.
Qed.

Lemma octave_sum_S (n : nat) (x y : R) :
  Noise.octave_sum simplex_noise (S n) x y =
  Noise.octave_sum simplex_noise n x y + Noise.octave simplex_noise x y n.
Proof.
  unfold Noise.octave_sum. rewrite seq_S, map_app; cbn [map].
  apply sum_snoc.
Qed.

Lemma octave_sum_bound (n : nat) (x y : R) :
  (forall a b, -1 <= simplex_noise a b <= 1) ->
  Rabs (Noise.octave_sum simplex_noise n x y)
  <= fold_right Rplus 0 (map Noise.amplitude (seq 0 n)).
Proof.
  intros Hs. induction n as [|n IH].
  - cbn. rewrite Rabs_R0. lra.
  - rewrite octave_sum_S, seq_S, map_app; cbn [map]. rewrite sum_snoc.
    eapply Rle_trans; [apply Rabs_triang|].
    apply Rplus_le_compat; [exact IH|].
    unfold Noise.octave. rewrite Rabs_mult.
    rewrite (Rabs_pos_eq (Noise.amplitude n)) by (left; apply amplitude_pos).
    pose proof (amplitude_pos n) as Hpos.
    assert (Rabs (simplex_noise (x * Noise.frequency n) (y * Noise.frequency n)) <= 1).
    { apply Rabs_le. apply Hs. }
    cbn [Nat.add]. nra.
Qed.

Lemma amplitude_total :
  23 < fold_right Rplus 0 (map Noise.amplitude (seq 0 15)) < 23.08.
Proof.
  cbn [seq map fold_right Noise.amplitude INR]. lra.
Qed.

(** X3: when the simplex noise stays within [-1, 1], [noise(x, y)] stays
    within [-23.08, 23.08], the sum of the fifteen amplitude multipliers;
    with all octaves at 1 it exceeds 23, so [waterMaxHeight = 10] is the
    amplitude of the first octave, not a bound on the height. *)
Theorem noise_bound (x y : R) :
  (forall a b, -1 <= simplex_noise a b <= 1) ->
  -23.08 <= Noise.noise simplex_noise x y <= 23.08
  /\ 23 < Noise.noise (fun _ _ => 1) x y.
Proof.
  intros Hs. split.
  - unfold Noise.noise. rewrite noise_loop_inv. cbn [Noise.r].
    pose proof (octave_sum_bound 15 x y Hs) as Hb.
    pose proof amplitude_total as [_ Ht].
    unfold Rabs in Hb.
    destruct (Rcase_abs (Noise.octave_sum simplex_noise 15 x y)); lra.
  - unfold Noise.noise. rewrite noise_loop_inv. cbn [Noise.r].
    pose proof amplitude_total as [Ht _].
    unfold Noise.octave_sum, Noise.octave.
    cbn [seq map fold_right Noise.amplitude INR] in *. lra.
Qed.

End NoiseBound.

Lemma noise_bound_witness :
  (forall a b : R, (-1 <= (fun _ _ : R => 1) a b <= 1)%R)
  /\ (-23.08 <= Noise.noise (fun _ _ => 1) 3 5 <= 23.08)%R
  /\ (23 < Noise.noise (fun _ _ => 1) 3 5)%R.
Proof.
  assert (H : forall a b : R, (-1 <= (fun _ _ : R => 1) a b <= 1)%R)
    by (intros; cbv beta; lra).
  split; [exact H|].
  exact (noise_bound (fun _ _ => 1%R) 3 5 H).
Defined.

Section HeightmapBound.

Local Open Scope R_scope.

Variable simplex_noise : R -> R -> R.
Hypothesis simplex_range : forall a b, -1 <= simplex_noise a b <= 1.

Lemma noise_range (x y : R) : -23.08 <= Noise.noise simplex_noise x y <= 23.08.
Proof using simplex_range.
  unfold Noise.noise. rewrite noise_loop_inv. cbn [Noise.r].
  pose proof (octave_sum_bound simplex_noise 15 x y simplex_range) as Hb.
  pose proof amplitude_total as [_ Ht].
  unfold Rabs in Hb.
  destruct (Rcase_abs (Noise.octave_sum simplex_noise 15 x y)); lra.
Qed.

Lemma texels_range (W : nat) :
  Forall (fun v => -23.08 <= v <= 23.08) (Noise.texels simplex_noise W).
Proof using simplex_range.
  unfold Noise.texels, Noise.row.
  apply Forall_forall. intros v Hv.
  apply list_elem_of_In, in_flat_map in Hv. destruct Hv as (j & _ & Hv).
  apply in_flat_map in Hv. destruct Hv as (i & _ & Hv).
  pose proof (noise_range (Noise.coord W i) (Noise.coord W j)) as Hn.
  cbn [Noise.cell In] in Hv.
  destruct Hv as [<- | [<- | [<- | [<- | []]]]]; lra.
Qed.

(** X4: when the simplex noise stays within [-1, 1], every number that
    [fillTexture] leaves in a data array no longer than the grid (height,
    copy of the height, 0 and 1 alike) lies within [-23.08, 23.08]. *)
Theorem heightmap_bound (pixels : list R) :
  (length pixels <= 4 * WIDTH * WIDTH)%nat ->
  Forall (fun v => -23.08 <= v <= 23.08) (Noise.fillTexture simplex_noise pixels).
Proof using simplex_range.
  intros Hlen. rewrite fillTexture_overlay.
  rewrite drop_ge by exact Hlen. rewrite app_nil_r.
  apply Forall_take, texels_range.
Qed.

End HeightmapBound.

Lemma heightmap_bound_witness :
  (forall a b : R, (-1 <= (fun _ _ : R => 1) a b <= 1)%R)
  /\ (length Scene.createTexture <= 4 * WIDTH * WIDTH)%nat
  /\ Forall (fun v => (-23.08 <= v <= 23.08)%R)
       (Noise.fillTexture (fun _ _ => 1%R) Scene.createTexture).
Proof.
  assert (H : forall a b : R, (-1 <= (fun _ _ : R => 1) a b <= 1)%R)
    by (intros; cbv beta; lra).
  assert (Hlen : (length Scene.createTexture <= 4 * WIDTH * WIDTH)%nat).
  { unfold Scene.createTexture. rewrite length_replicate. apply Nat.le_refl. }
  split; [exact H|]. split; [exact Hlen|].
  exact (heightmap_bound (fun _ _ => 1%R) H Scene.createTexture Hlen).
Defined.

(** * More on the agent *)

Section AgentMore.

Local Open Scope R_scope.
Import Scene.

(** [stepAgent] in full, with the angle simplified. *)
Lemma stepAgent_spec (dt : R) (st : state) (p : Vector3) :
  vector3_at sphere_position (objects st) = Some p ->
  let a := or_zero (currentAngle st) + PI * dt in
  stepAgent dt st =
  Some (log (MoveAgent (128 * cos a) (128 * sin a))
         (State (lastTimestamp st) (deltaTime st) (Some a)
                (<[sphere_position := OVector3 (V3 (128 * cos a) (vy p) (128 * sin a))]>
                   (objects st))
                (waterUniforms st) (agentUniforms st) (heightmapUniforms st)
                (gpuCompute st) (trace st))).
Proof.
  intros Hp a. unfold stepAgent. rewrite Hp. cbn [mbind option_bind].
  assert (Hradius : BOUNDS / 4 = 128) by (unfold BOUNDS; lra).
  assert (Hangle : or_zero (currentAngle st) + 2 * PI * (BOUNDS / 4) / 2 * dt / (BOUNDS / 4) = a)
    by (unfold a; rewrite Hradius; lra).
  rewrite Hangle, Hradius. reflexivity.
Qed.

(** [moved_state] is what a first step of 16 ms makes of [sample_state]. *)
Lemma moved_state_reached : stepAgent 0.016 sample_state = Some moved_state.
Proof.
  rewrite (stepAgent_spec 0.016 sample_state (V3 0 0 0)) by reflexivity.
  cbv zeta. change (or_zero (currentAngle sample_state)) with 0.
  replace (0 + PI * 0.016) with (PI * 0.016) by lra.
  reflexivity.
Qed.

(** X8: wherever the agent was, after a step it stands strictly between
    the walls that [setWalls] places, at least [BOUNDS / 4] away from each,
    and at the height it had. *)
Theorem agent_between_walls (dt : R) (st : state) (p : Vector3) :
  vector3_at sphere_position (objects st) = Some p ->
  exists st' p',
    stepAgent dt st = Some st'
    /\ vector3_at sphere_position (objects st') = Some p'
    /\ vx (Pool.position Pool.wall_1) + BOUNDS / 4 <= vx p'
       <= vx (Pool.position Pool.wall_2) - BOUNDS / 4
    /\ vz (Pool.position Pool.wall_3) + BOUNDS / 4 <= vz p'
       <= vz (Pool.position Pool.wall_4) - BOUNDS / 4
    /\ vy p' = vy p.
Proof.
  intros Hp.
  pose proof (stepAgent_spec dt st p Hp) as H1. cbv zeta in H1.
  eexists. eexists.
  split; [exact H1|].
  cbn [log objects].
  split; [apply vector3_at_insert|].
  cbn [vx vy vz Pool.position Pool.wall_1 Pool.wall_2 Pool.wall_3 Pool.wall_4].
  pose proof (COS_bound (or_zero (currentAngle st) + PI * dt)) as [Hc1 Hc2].
  pose proof (SIN_bound (or_zero (currentAngle st) + PI * dt)) as [Hs1 Hs2].
  unfold BOUNDS. repeat apply conj; try lra.
Qed.

End AgentMore.

Lemma agent_between_walls_witness :
  Scene.vector3_at Scene.sphere_position (Scene.objects Scene.sample_state)
  = Some (Scene.V3 0 0 0)
  /\ exists st' p',
    Scene.stepAgent 0.5 Scene.sample_state = Some st'
    /\ Scene.vector3_at Scene.sphere_position (Scene.objects st') = Some p'
    /\ (Scene.vx (Pool.position Pool.wall_1) + BOUNDS / 4 <= Scene.vx p'
        <= Scene.vx (Pool.position Pool.wall_2) - BOUNDS / 4)%R
    /\ (Scene.vz (Pool.position Pool.wall_3) + BOUNDS / 4 <= Scene.vz p'
        <= Scene.vz (Pool.position Pool.wall_4) - BOUNDS / 4)%R
    /\ Scene.vy p' = Scene.vy (Scene.V3 0 0 0).
Proof.
  split; [reflexivity|].
  apply (agent_between_walls 0.5 Scene.sample_state (Scene.V3 0 0 0)).
  reflexivity.
Defined.

(** * More on the frames *)

Section FramesMore.

Local Open Scope R_scope.
Import Scene.

Variable heightmap_shader :
  gmap string value -> gmap loc object -> list R -> list R.
Variable simplex_noise : R -> R -> R.

Lemma or_zero_Some (a : R) : or_zero (Some a) = a.
Proof. reflexivity. Qed.

(** One frame of a settled state, as far as the clock and the agent go. *)
Lemma animate_clock (now : R) (st : state) :
  settled st ->
  exists st' p,
    animate heightmap_shader now st = Some st'
    /\ settled st'
    /\ lastTimestamp st' = now
    /\ deltaTime st' = (now - lastTimestamp st) / 1000
    /\ currentAngle st'
       = Some (or_zero (currentAngle st) + PI * ((now - lastTimestamp st) / 1000))
    /\ vector3_at sphere_position (objects st) = Some p
    /\ vector3_at sphere_position (objects st')
       = Some (V3 (128 * cos (or_zero (currentAngle st)
                              + PI * ((now - lastTimestamp st) / 1000)))
                  (vy p)
                  (128 * sin (or_zero (currentAngle st)
                              + PI * ((now - lastTimestamp st) / 1000))))
    /\ trace st' = trace st ++ drop (length (trace st)) (trace st')
    /\ length (drop (length (trace st)) (trace st')) = 16%nat
    /\ length (passes (drop (length (trace st)) (trace st'))) = 1%nat
    /\ length (draws (drop (length (trace st)) (trace st'))) = 1%nat.
Proof.
  intros Hst.
  destruct (animate_settled heightmap_shader now st Hst) as (st' & Hrun & Hst' & _).
  destruct st as [lt dt ca o wu au hu g tr].
  destruct Hst as [Hready _ _ _ _].
  destruct (ready_objects _ _ _ _ _ _ _ _ _ Hready) as (p & cam & M & Hp & Hcam & HM).
  pose proof (animate_spec heightmap_shader now _ _ _ _ _ _ _ _ _ p cam M
                Hready Hp Hcam HM) as Hspec.
  cbv zeta in Hspec.
  assert (Hangle : or_zero ca + 2 * PI * (BOUNDS / 4) / 2 * ((now - lt) / 1000) / (BOUNDS / 4)
                   = or_zero ca + PI * ((now - lt) / 1000))
    by (unfold BOUNDS; lra).
  assert (Hradius : BOUNDS / 4 = 128) by (unfold BOUNDS; lra).
  rewrite Hangle, Hradius in Hspec.
  rewrite Hspec in Hrun. injection Hrun as <-.
  eexists. exists p. split; [exact Hspec|]. split; [exact Hst'|].
  cbn [lastTimestamp deltaTime currentAngle objects trace].
  split; [reflexivity|]. split; [reflexivity|]. split; [reflexivity|].
  split; [exact Hp|].
  split.
  { rewrite updateMatrixWorld_vector3 by done.
    rewrite vector3_at_insert_ne by done. apply vector3_at_insert. }
  rewrite drop_app_length.
  repeat apply conj; reflexivity.
Qed.

(** The angle runs with the clock: [angle - PI * lastTimestamp / 1000] and
    the agent's height are the same before and after any number of
    frames. *)
Lemma frames_clock (nows : list R) (st : state) :
  settled st ->
  exists st' p p',
    frames heightmap_shader nows st = Some st'
    /\ settled st'
    /\ or_zero (currentAngle st') - PI * (lastTimestamp st' / 1000)
       = or_zero (currentAngle st) - PI * (lastTimestamp st / 1000)
    /\ vector3_at sphere_position (objects st) = Some p
    /\ vector3_at sphere_position (objects st') = Some p'
    /\ vy p' = vy p
    /\ length (trace st') = (length (trace st) + 16 * length nows)%nat
    /\ length (passes (trace st')) = (length (passes (trace st)) + length nows)%nat
    /\ length (draws (trace st')) = (length (draws (trace st)) + length nows)%nat.
Proof.
  revert st; induction nows as [|t nows IH]; intros st Hst.
  - destruct Hst as [Hready ? ? ? ?].
    destruct (ready_sphere _ Hready) as [p Hp].
    exists st, p, p. cbn [frames length].
    repeat apply conj; try reflexivity; try assumption; try lia.
    split; assumption.
  - destruct (animate_clock t st Hst)
      as (st1 & p & Hrun & Hst1 & Hlt & _ & Hca & Hp & Hp1 & Htr & Hlen & Hpass & Hdraw).
    destruct (IH st1 Hst1)
      as (st' & q & p' & Hrest & Hst' & Hq & Hq1 & Hp' & Hy & Hlen' & Hpass' & Hdraw').
    rewrite Hp1 in Hq1. injection Hq1 as <-. cbn [vy] in Hy.
    exists st', p, p'. cbn [frames]. rewrite Hrun. cbn [mbind option_bind].
    split; [exact Hrest|]. split; [exact Hst'|].
    split.
    { rewrite Hq, Hca, Hlt, or_zero_Some. lra. }
    split; [exact Hp|]. split; [exact Hp'|]. split; [exact Hy|].
    rewrite Hlen', Hpass', Hdraw'. rewrite Htr at 1 2 3.
    unfold passes, draws in *.
    rewrite length_app, !omap_app, !length_app, Hlen, Hpass, Hdraw.
    cbn [length]. repeat apply conj; lia.
Qed.

(** X15: after a setup in which the compute renderer started and [N]
    frames, the simulation has made exactly [N] passes and the renderer
    exactly [N] draw calls, and each frame has added 16 operations to those
    of the setup. *)
Theorem one_step_per_frame (e : env) (nows : list R) :
  phong_ok e = true ->
  init_error e = None ->
  exists st0 st,
    setup simplex_noise e = Some st0
    /\ frames heightmap_shader nows st0 = Some st
    /\ length (passes (trace st)) = length nows
    /\ length (draws (trace st)) = length nows
    /\ length (trace st) = (length (trace st0) + 16 * length nows)%nat.
Proof.
  intros Hphong Hinit.
  pose proof (setup_spec simplex_noise e Hphong) as Hsetup.
  pose proof (after_setup_settled simplex_noise e Hinit) as Hst0.
  destruct (frames_clock nows _ Hst0)
    as (st & p & p1 & Hrun & _ & _ & _ & _ & _ & Hlen & Hpass & Hdraw).
  exists (after_setup simplex_noise e), st.
  split; [exact Hsetup|]. split; [exact Hrun|].
  rewrite Hpass, Hdraw, Hlen.
  cbn [after_setup trace]. unfold setup_trace. rewrite Hinit.
  repeat apply conj; reflexivity.
Qed.

End FramesMore.

(** * The agent's arithmetic in floating point *)

Section RealFacts.

Local Open Scope R_scope.
Import Rounded.

Lemma abs_sin_le (x : R) : Rabs (sin x) <= Rabs x.
Proof.
  assert (Hpos : forall y, 0 <= y -> Rabs (sin y) <= y).
  { intros y Hy. destruct (Rle_lt_dec y 0) as [H0|H0].
    - assert (y = 0) by lra. subst y. rewrite sin_0, Rabs_R0. lra.
    - pose proof (sin_lt_x y H0) as Hlt.
      destruct (Rle_lt_dec y PI) as [Hpi|Hpi].
      + pose proof (sin_ge_0 y Hy Hpi). rewrite Rabs_pos_eq by assumption. lra.
      + pose proof (SIN_bound y) as [Hlo Hhi]. pose proof PI2_3_2.
        apply Rabs_le. lra. }
  destruct (Rle_lt_dec 0 x) as [Hx|Hx].
  - rewrite (Rabs_pos_eq x) by assumption. apply Hpos. assumption.
  - rewrite <- (Rabs_Ropp (sin x)), <- sin_neg, <- (Rabs_Ropp x).
    rewrite (Rabs_pos_eq (- x)) by lra. apply Hpos. lra.
Qed.

Lemma cos_lipschitz (a b : R) : Rabs (cos a - cos b) <= Rabs (a - b).
Proof.
  rewrite form2.
  replace (-2 * sin ((a - b) / 2) * sin ((a + b) / 2))
    with (- (2 * sin ((a - b) / 2)) * sin ((a + b) / 2)) by ring.
  rewrite Rabs_mult, Rabs_Ropp, Rabs_mult, (Rabs_pos_eq 2) by lra.
  pose proof (abs_sin_le ((a - b) / 2)) as H1.
  pose proof (SIN_bound ((a + b) / 2)) as [Hlo Hhi].
  assert (H2 : Rabs (sin ((a + b) / 2)) <= 1) by (apply Rabs_le; lra).
  assert (H3 : Rabs ((a - b) / 2) = Rabs (a - b) / 2).
  { unfold Rdiv. rewrite Rabs_mult, (Rabs_pos_eq (/ 2)) by lra. reflexivity. }
  pose proof (Rabs_pos (sin ((a - b) / 2))). pose proof (Rabs_pos (sin ((a + b) / 2))).
  rewrite H3 in H1. nra.
Qed.

Lemma sin_lipschitz (a b : R) : Rabs (sin a - sin b) <= Rabs (a - b).
Proof.
  rewrite form4.
  rewrite !Rabs_mult, (Rabs_pos_eq 2) by lra.
  pose proof (abs_sin_le ((a - b) / 2)) as H1.
  pose proof (COS_bound ((a + b) / 2)) as [Hlo Hhi].
  assert (H2 : Rabs (cos ((a + b) / 2)) <= 1) by (apply Rabs_le; lra).
  assert (H3 : Rabs ((a - b) / 2) = Rabs (a - b) / 2).
  { unfold Rdiv. rewrite Rabs_mult, (Rabs_pos_eq (/ 2)) by lra. reflexivity. }
  pose proof (Rabs_pos (sin ((a - b) / 2))). pose proof (Rabs_pos (cos ((a + b) / 2))).
  rewrite H3 in H1. nra.
Qed.

Lemma rel_error_refl (X : R) : rel_error 0 X X.
Proof. exists 0. split; [ring | rewrite Rabs_R0; lra]. Qed.

Lemma rel_error_weaken (k k' x X : R) : rel_error k x X -> k <= k' -> rel_error k' x X.
Proof. intros (d & Hx & Hd) Hk. exists d. split; [exact Hx | lra]. Qed.

Lemma rel_error_mul (a b x X y Y : R) :
  rel_error a x X -> rel_error b y Y -> rel_error (a + b + a * b) (x * y) (X * Y).
Proof.
  intros (d & -> & Hd) (e & -> & He).
  exists (d + e + d * e). split; [ring|].
  pose proof (Rabs_pos d). pose proof (Rabs_pos e).
  eapply Rle_trans; [apply Rabs_triang|].
  eapply Rle_trans; [apply Rplus_le_compat; [apply Rabs_triang | apply Rle_refl]|].
  rewrite Rabs_mult. nra.
Qed.

Lemma rel_error_scale (a c x X : R) : rel_error a x X -> rel_error a (c * x) (c * X).
Proof. intros (d & -> & Hd). exists d. split; [ring | exact Hd]. Qed.

Lemma rel_error_scale_r (a c x X : R) : rel_error a x X -> rel_error a (x * c) (X * c).
Proof. intros (d & -> & Hd). exists d. split; [ring | exact Hd]. Qed.

Lemma rel_error_div_const (a c x X : R) : rel_error a x X -> rel_error a (x / c) (X / c).
Proof. intros (d & -> & Hd). exists d. split; [unfold Rdiv; ring | exact Hd]. Qed.

Lemma rel_error_div (a b x X y Y : R) :
  rel_error a x X -> rel_error b y Y -> b < 1 -> Y <> 0 ->
  rel_error ((a + b) / (1 - b)) (x / y) (X / Y).
Proof.
  intros (d & -> & Hd) (e & -> & He) Hb HY.
  pose proof (Rabs_pos d) as Hd0. pose proof (Rabs_pos e) as He0.
  assert (He1 : -b <= e <= b).
  { split; [pose proof (Rabs_triang_inv 0 e) | pose proof (Rle_abs e)]; 
    unfold Rabs in *; destruct (Rcase_abs e); lra. }
  assert (Hpos : 0 < 1 + e) by lra.
  exists ((d - e) / (1 + e)). split; [field; split; lra|].
  unfold Rdiv. rewrite Rabs_mult, Rabs_inv, (Rabs_pos_eq (1 + e)) by lra.
  assert (Hnum : Rabs (d - e) <= a + b).
  { eapply Rle_trans; [apply Rabs_triang|]. rewrite Rabs_Ropp. lra. }
  assert (Hinv : / (1 + e) <= / (1 - b)).
  { apply Rinv_le_contravar; lra. }
  assert (0 < / (1 + e)) by (apply Rinv_0_lt_compat; lra).
  assert (0 < / (1 - b)) by (apply Rinv_0_lt_compat; lra).
  pose proof (Rabs_pos (d - e)).
  nra.
Qed.

Lemma rel_error_abs (k x X : R) : rel_error k x X -> Rabs (x - X) <= k * Rabs X.
Proof.
  intros (d & -> & Hd).
  replace (X * (1 + d) - X) with (X * d) by ring.
  rewrite Rabs_mult. pose proof (Rabs_pos X). nra.
Qed.

End RealFacts.

Section RoundingError.

Local Open Scope R_scope.
Import Scene Rounded.

Variable fl : R -> R.
Variable Math_PI : R.
Variable u : R.

Hypothesis u_range : 0 <= u <= 1 / 1000.
Hypothesis fl_error : forall x, Rabs (fl x - x) <= u * Rabs x.
Hypothesis PI_error : Rabs (Math_PI - PI) <= u * PI.

Lemma rel_error_of_abs (k x X : R) :
  0 <= k -> Rabs (x - X) <= k * Rabs X -> rel_error k x X.
Proof.
  intros Hk H. destruct (Req_dec X 0) as [->|HX].
  - rewrite Rabs_R0, Rmult_0_r, Rminus_0_r in H.
    assert (x = 0).
    { destruct (Req_dec x 0) as [|Hx]; [assumption|].
      pose proof (Rabs_pos_lt x Hx). lra. }
    subst x. exists 0. split; [ring|]. rewrite Rabs_R0. exact Hk.
  - exists ((x - X) / X). split; [field; exact HX|].
    unfold Rdiv. rewrite Rabs_mult, Rabs_inv.
    pose proof (Rabs_pos_lt X HX) as HXpos.
    apply (Rmult_le_reg_r (Rabs X)); [exact HXpos|].
    rewrite Rmult_assoc, Rinv_l by lra. lra.
Qed.

Lemma rel_error_fl (k x X : R) : rel_error k x X -> rel_error (k + u + k * u) (fl x) X.
Proof using fl_error u_range.
  intros Hx.
  pose proof (rel_error_of_abs u (fl x) x (proj1 u_range) (fl_error x)) as (d & Hfl & Hd).
  destruct Hx as (e & Hx & He). rewrite Hfl, Hx.
  exists (e + d + e * d). split; [ring|].
  pose proof (Rabs_pos d). pose proof (Rabs_pos e).
  eapply Rle_trans; [apply Rabs_triang|].
  eapply Rle_trans; [apply Rplus_le_compat; [apply Rabs_triang | apply Rle_refl]|].
  rewrite Rabs_mult. nra.
Qed.

Lemma rel_error_PI : rel_error u Math_PI PI.
Proof using PI_error u_range.
  apply rel_error_of_abs; [apply u_range|]. rewrite (Rabs_pos_eq PI); [exact PI_error|].
  pose proof PI_RGT_0. lra.
Qed.

Lemma rel_error_radius : rel_error u (radius fl) 128.
Proof using fl_error u_range.
  unfold radius. replace (BOUNDS / 4) with 128 by (unfold BOUNDS; lra).
  eapply rel_error_weaken; [apply rel_error_fl, rel_error_refl|]. lra.
Qed.

Lemma rel_error_speed : rel_error (6 * u) (speed fl Math_PI) (2 * PI * 128 / 2).
Proof using fl_error PI_error u_range.
  unfold speed.
  assert (H1 : rel_error (21 / 10 * u) (fl (2 * Math_PI)) (2 * PI)).
  { eapply rel_error_weaken; [apply rel_error_fl, rel_error_scale, rel_error_PI|]. nra. }
  assert (H2 : rel_error (32 / 10 * u) (fl (2 * Math_PI) * radius fl) (2 * PI * 128)).
  { eapply rel_error_weaken; [apply rel_error_mul; [exact H1 | exact rel_error_radius]|]. nra. }
  assert (H3 : rel_error (43 / 10 * u) (fl (fl (2 * Math_PI) * radius fl)) (2 * PI * 128)).
  { eapply rel_error_weaken; [apply rel_error_fl, H2|]. nra. }
  eapply rel_error_weaken; [apply rel_error_fl, rel_error_div_const, H3|]. nra.
Qed.

(** The increment of the angle for an elapsed time. *)
Lemma rel_error_increment (dt : R) :
  rel_error (10 * u) (fl (fl (speed fl Math_PI * dt) / radius fl)) (PI * dt).
Proof using fl_error PI_error u_range.
  replace (PI * dt) with (2 * PI * 128 / 2 * dt / 128) by field.
  assert (H1 : rel_error (71 / 10 * u) (fl (speed fl Math_PI * dt)) (2 * PI * 128 / 2 * dt)).
  { eapply rel_error_weaken; [apply rel_error_fl, rel_error_scale_r, rel_error_speed|]. nra. }
  assert (H2 : rel_error ((71 / 10 * u + u) / (1 - u))
                   (fl (speed fl Math_PI * dt) / radius fl)
                   (2 * PI * 128 / 2 * dt / 128)).
  { apply rel_error_div; [exact H1 | exact rel_error_radius | lra | lra]. }
  assert (H3 : (71 / 10 * u + u) / (1 - u) <= 82 / 10 * u).
  { apply (Rmult_le_reg_r (1 - u)); [lra|].
    unfold Rdiv at 1. rewrite Rmult_assoc, Rinv_l by lra. nra. }
  eapply rel_error_weaken; [apply rel_error_fl; eapply rel_error_weaken; [exact H2 | exact H3]|].
  nra.
Qed.

(** One call of [stepAgent]: the stored angle against the exact one. *)
Lemma advance_error (a : option R) (dt : R) :
  Rabs (advance fl Math_PI a dt - (or_zero a + PI * dt))
  <= 12 * u * (Rabs (or_zero a) + PI * Rabs dt).
Proof using fl_error PI_error u_range.
  unfold advance.
  set (T := fl (fl (speed fl Math_PI * dt) / radius fl)).
  pose proof (rel_error_abs _ _ _ (rel_error_increment dt)) as HT. fold T in HT.
  pose proof PI_RGT_0 as Hpi.
  rewrite Rabs_mult, (Rabs_pos_eq PI) in HT by lra.
  pose proof (fl_error (or_zero a + T)) as Hfl.
  pose proof (Rabs_pos (or_zero a)) as Ha0. pose proof (Rabs_pos dt) as Hd0.
  assert (HTabs : Rabs T <= PI * Rabs dt + 10 * u * (PI * Rabs dt)).
  { replace T with ((T - PI * dt) + PI * dt) by ring.
    eapply Rle_trans; [apply Rabs_triang|].
    rewrite Rabs_mult, (Rabs_pos_eq PI) by lra. lra. }
  assert (Hsum : Rabs (or_zero a + T) <= Rabs (or_zero a) + Rabs T) by apply Rabs_triang.
  replace (fl (or_zero a + T) - (or_zero a + PI * dt))
    with ((fl (or_zero a + T) - (or_zero a + T)) + (T - PI * dt)) by ring.
  eapply Rle_trans; [apply Rabs_triang|].
  set (D := PI * Rabs dt) in *. set (A := Rabs (or_zero a)) in *.
  set (Y := Rabs (or_zero a + T)) in *. set (TT := Rabs T) in *.
  assert (HD : 0 <= D) by (unfold D in *; nra).
  assert (HuD : 0 <= u * D) by nra.
  assert (H1 : u * Y <= u * (A + TT)) by nra.
  assert (H2 : u * TT <= u * D + 10 * (u * (u * D))) by nra.
  assert (H3 : u * (u * D) <= u * D / 1000) by nra.
  assert (HuA : 0 <= u * A) by nra.
  nra.
Qed.

Lemma advance_abs (a : option R) (dt : R) :
  Rabs (advance fl Math_PI a dt)
  <= (1 + 12 * u) * (Rabs (or_zero a) + PI * Rabs dt).
Proof using fl_error PI_error u_range.
  pose proof (advance_error a dt) as He.
  pose proof PI_RGT_0 as Hpi.
  replace (advance fl Math_PI a dt)
    with ((advance fl Math_PI a dt - (or_zero a + PI * dt)) + (or_zero a + PI * dt)) by ring.
  eapply Rle_trans; [apply Rabs_triang|].
  assert (Rabs (or_zero a + PI * dt) <= Rabs (or_zero a) + PI * Rabs dt).
  { eapply Rle_trans; [apply Rabs_triang|].
    rewrite Rabs_mult, (Rabs_pos_eq PI) by lra. lra. }
  lra.
Qed.

Section Trigonometry.

Variable Math_cos Math_sin : R -> R.
Variable v : R.

Hypothesis v_range : 0 <= v <= 1.
Hypothesis cos_error : forall x, Rabs (Math_cos x - cos x) <= v.
Hypothesis sin_error : forall x, Rabs (Math_sin x - sin x) <= v.

(** The position written for a stored angle. *)
Lemma position_x_error (a : R) :
  Rabs (position_x fl Math_cos a - 128 * cos a) <= 128 * (v + 5 * u).
Proof using fl_error cos_error u_range v_range.
  unfold position_x.
  pose proof rel_error_radius as (d & Hr & Hd). rewrite Hr.
  pose proof (cos_error a) as Hc. pose proof (COS_bound a) as [Hlo Hhi].
  pose proof (fl_error (128 * (1 + d) * Math_cos a)) as Hfl.
  set (c := Math_cos a) in *.
  assert (Hcabs : Rabs c <= 1 + v).
  { replace c with ((c - cos a) + cos a) by ring.
    eapply Rle_trans; [apply Rabs_triang|].
    assert (Rabs (cos a) <= 1) by (apply Rabs_le; lra). lra. }
  assert (Hd1 : Rabs (1 + d) <= 1 + u).
  { eapply Rle_trans; [apply Rabs_triang|]. rewrite Rabs_R1. lra. }
  assert (Hprod : Rabs (128 * (1 + d) * c) <= 128 * ((1 + u) * (1 + v))).
  { rewrite !Rabs_mult, (Rabs_pos_eq 128) by lra.
    pose proof (Rabs_pos (1 + d)). pose proof (Rabs_pos c). nra. }
  replace (fl (128 * (1 + d) * c) - 128 * cos a)
    with ((fl (128 * (1 + d) * c) - 128 * (1 + d) * c)
          + (128 * (d * c) + 128 * (c - cos a))) by ring.
  eapply Rle_trans; [apply Rabs_triang|].
  assert (Rabs (128 * (d * c) + 128 * (c - cos a)) <= 128 * (u * (1 + v)) + 128 * v).
  { eapply Rle_trans; [apply Rabs_triang|].
    rewrite !Rabs_mult, (Rabs_pos_eq 128) by lra.
    pose proof (Rabs_pos d). pose proof (Rabs_pos c). nra. }
  nra.
Qed.

Lemma position_z_error (a : R) :
  Rabs (position_z fl Math_sin a - 128 * sin a) <= 128 * (v + 5 * u).
Proof using fl_error sin_error u_range v_range.
  unfold position_z.
  pose proof rel_error_radius as (d & Hr & Hd). rewrite Hr.
  pose proof (sin_error a) as Hc. pose proof (SIN_bound a) as [Hlo Hhi].
  pose proof (fl_error (128 * (1 + d) * Math_sin a)) as Hfl.
  set (c := Math_sin a) in *.
  assert (Hcabs : Rabs c <= 1 + v).
  { replace c with ((c - sin a) + sin a) by ring.
    eapply Rle_trans; [apply Rabs_triang|].
    assert (Rabs (sin a) <= 1) by (apply Rabs_le; lra). lra. }
  assert (Hd1 : Rabs (1 + d) <= 1 + u).
  { eapply Rle_trans; [apply Rabs_triang|]. rewrite Rabs_R1. lra. }
  assert (Hprod : Rabs (128 * (1 + d) * c) <= 128 * ((1 + u) * (1 + v))).
  { rewrite !Rabs_mult, (Rabs_pos_eq 128) by lra.
    pose proof (Rabs_pos (1 + d)). pose proof (Rabs_pos c). nra. }
  replace (fl (128 * (1 + d) * c) - 128 * sin a)
    with ((fl (128 * (1 + d) * c) - 128 * (1 + d) * c)
          + (128 * (d * c) + 128 * (c - sin a))) by ring.
  eapply Rle_trans; [apply Rabs_triang|].
  assert (Rabs (128 * (d * c) + 128 * (c - sin a)) <= 128 * (u * (1 + v)) + 128 * v).
  { eapply Rle_trans; [apply Rabs_triang|].
    rewrite !Rabs_mult, (Rabs_pos_eq 128) by lra.
    pose proof (Rabs_pos d). pose proof (Rabs_pos c). nra. }
  nra.
Qed.

End Trigonometry.

End RoundingError.

Section ClockFacts.

Local Open Scope R_scope.
Import Rounded.

Lemma rel_error_trans (a b x y Z : R) :
  rel_error a x y -> rel_error b y Z -> rel_error (a + b + a * b) x Z.
Proof.
  intros (d & -> & Hd) (e & -> & He).
  exists (e + d + e * d). split; [ring|].
  pose proof (Rabs_pos d). pose proof (Rabs_pos e).
  eapply Rle_trans; [apply Rabs_triang|].
  eapply Rle_trans; [apply Rplus_le_compat; [apply Rabs_triang | apply Rle_refl]|].
  rewrite Rabs_mult. nra.
Qed.

Lemma cos_minus_2PI (x : R) : cos (x - 2 * PI) = cos x.
Proof. rewrite cos_minus, cos_2PI, sin_2PI. ring. Qed.

Lemma sin_minus_2PI (x : R) : sin (x - 2 * PI) = sin x.
Proof. rewrite sin_minus, cos_2PI, sin_2PI. ring. Qed.

Lemma last_cons (x t0 : R) (ts : list R) : List.last (x :: ts) t0 = List.last ts x.
Proof.
  revert x t0; induction ts as [|y ts IH]; intros x t0; [reflexivity|].
  change (List.last (x :: y :: ts) t0) with (List.last (y :: ts) t0).
  rewrite IH. symmetry. apply IH.
Qed.

Lemma variation_snoc (t0 t : R) (ts : list R) :
  variation t0 (ts ++ [t]) = variation t0 ts + Rabs (t - List.last ts t0).
Proof.
  revert t0; induction ts as [|x ts IH]; intros t0.
  - cbn. lra.
  - cbn [app variation]. rewrite IH.
    rewrite last_cons. lra.
Qed.

Lemma variation_pos (t0 : R) (ts : list R) : 0 <= variation t0 ts.
Proof.
  revert t0; induction ts as [|x ts IH]; intros t0; cbn.
  - lra.
  - pose proof (Rabs_pos (x - t0)). pose proof (IH x). lra.
Qed.

Lemma variation_span (t0 : R) (ts : list R) :
  Rabs (List.last ts t0 - t0) <= variation t0 ts.
Proof.
  revert t0; induction ts as [|x ts IH]; intros t0.
  - cbn. replace (t0 - t0) with 0 by ring. rewrite Rabs_R0. lra.
  - rewrite last_cons. cbn [variation].
    replace (List.last ts x - t0) with ((List.last ts x - x) + (x - t0)) by ring.
    eapply Rle_trans; [apply Rabs_triang|]. pose proof (IH x). lra.
Qed.

End ClockFacts.

Section RoundingTheorems.

Local Open Scope R_scope.
Import Scene Rounded.

Variable fl : R -> R.
Variable Math_PI : R.
Variable u : R.

Hypothesis u_range : 0 <= u <= 1 / 1000.
Hypothesis fl_error : forall x, Rabs (fl x - x) <= u * Rabs x.
Hypothesis PI_error : Rabs (Math_PI - PI) <= u * PI.

Lemma additive_angle (a0 : option R) (dt1 dt2 dt12 : R) :
  Rabs (dt12 - (dt1 + dt2)) <= u * Rabs (dt1 + dt2) ->
  Rabs (advance fl Math_PI (Some (advance fl Math_PI a0 dt1)) dt2
        - advance fl Math_PI a0 dt12)
  <= 40 * u * (Rabs (or_zero a0) + PI * (Rabs dt1 + Rabs dt2)).
Proof using u_range fl_error PI_error.
  intros Hsum.
  set (A1 := advance fl Math_PI a0 dt1).
  set (A2 := advance fl Math_PI (Some A1) dt2).
  set (A12 := advance fl Math_PI a0 dt12).
  pose proof (advance_error fl Math_PI u u_range fl_error PI_error a0 dt1) as H1.
  pose proof (advance_abs fl Math_PI u u_range fl_error PI_error a0 dt1) as H1'.
  pose proof (advance_error fl Math_PI u u_range fl_error PI_error (Some A1) dt2) as H2.
  pose proof (advance_error fl Math_PI u u_range fl_error PI_error a0 dt12) as H12.
  fold A1 in H1, H1'. fold A2 in H2. fold A12 in H12.
  change (or_zero (Some A1)) with A1 in H2.
  pose proof PI_RGT_0 as Hpi.
  pose proof (Rabs_pos (or_zero a0)) as Ho. pose proof (Rabs_pos dt1) as Hd1.
  pose proof (Rabs_pos dt2) as Hd2. pose proof (Rabs_triang dt1 dt2) as Htri.
  assert (Hdt12 : Rabs dt12 <= Rabs (dt1 + dt2) + u * Rabs (dt1 + dt2)).
  { pose proof (Rabs_triang (dt12 - (dt1 + dt2)) (dt1 + dt2)) as Ht.
    replace (dt12 - (dt1 + dt2) + (dt1 + dt2)) with dt12 in Ht by ring. lra. }
  set (o := or_zero a0) in *.
  replace (A2 - A12)
    with ((A2 - (A1 + PI * dt2)) + (A1 - (o + PI * dt1))
          + (- (A12 - (o + PI * dt12)) + - (PI * (dt12 - (dt1 + dt2)))))
    by ring.
  eapply Rle_trans; [apply Rabs_triang|].
  eapply Rle_trans;
    [apply Rplus_le_compat; [apply Rabs_triang | apply Rabs_triang]|].
  rewrite !Rabs_Ropp, (Rabs_mult PI), (Rabs_pos_eq PI) by lra.
  set (X := Rabs o) in *. set (D1 := Rabs dt1) in *. set (D2 := Rabs dt2) in *.
  set (D12 := Rabs (dt1 + dt2)) in *. set (Z := Rabs A1) in *.
  set (D12' := Rabs dt12) in *. set (S12 := Rabs (dt12 - (dt1 + dt2))) in *.
  assert (K1 : 0 <= PI * D1) by nra. assert (K2 : 0 <= PI * D2) by nra.
  assert (K12 : PI * D12 <= PI * D1 + PI * D2) by nra.
  assert (K0 : 0 <= D12) by (unfold D12; apply Rabs_pos).
  assert (K13 : 0 <= PI * D12) by nra.
  assert (K14 : PI * S12 <= u * (PI * D12)) by nra.
  assert (K15 : PI * D12' <= PI * D12 + u * (PI * D12)) by nra.
  replace (PI * (D1 + D2)) with (PI * D1 + PI * D2) by ring.
  set (P1 := PI * D1) in *. set (P2 := PI * D2) in *. set (P12 := PI * D12) in *.
  set (P12' := PI * D12') in *. set (PS := PI * S12) in *.
  assert (K5 : 0 <= u * X) by nra. assert (K6 : 0 <= u * P1) by nra.
  assert (K7 : 0 <= u * P2) by nra.
  assert (K8 : u * P12 <= u * P1 + u * P2) by nra.
  assert (K16 : 0 <= u * P12) by nra.
  assert (K17 : u * P12' <= u * P12 + u * (u * P12)) by nra.
  assert (K18 : u * (u * P12) <= u * P12 / 1000) by nra.
  assert (K3 : u * Z <= u * X + u * P1 + 12 * (u * (u * X)) + 12 * (u * (u * P1))) by nra.
  assert (K4 : u * (u * X) <= u * X / 1000) by nra.
  assert (K9 : u * (u * P1) <= u * P1 / 1000) by nra.
  nra.
Qed.

Lemma period_angle (a0 : option R) (dt dt' : R) :
  Rabs (dt' - (dt + 2)) <= u * Rabs (dt + 2) ->
  Rabs (advance fl Math_PI a0 dt' - 2 * PI - advance fl Math_PI a0 dt)
  <= 14 * u * (2 * Rabs (or_zero a0) + PI * (Rabs dt + Rabs (dt + 2))).
Proof using u_range fl_error PI_error.
  intros Hsum.
  pose proof (advance_error fl Math_PI u u_range fl_error PI_error a0 dt) as H1.
  pose proof (advance_error fl Math_PI u u_range fl_error PI_error a0 dt') as H2.
  set (A := advance fl Math_PI a0 dt) in *.
  set (A' := advance fl Math_PI a0 dt') in *.
  set (o := or_zero a0) in *.
  pose proof PI_RGT_0 as Hpi.
  pose proof (Rabs_pos o) as Ho. pose proof (Rabs_pos dt) as Hd.
  pose proof (Rabs_pos (dt + 2)) as Hd2.
  assert (Hdt' : Rabs dt' <= Rabs (dt + 2) + u * Rabs (dt + 2)).
  { pose proof (Rabs_triang (dt' - (dt + 2)) (dt + 2)) as Ht.
    replace (dt' - (dt + 2) + (dt + 2)) with dt' in Ht by ring. lra. }
  replace (A' - 2 * PI - A)
    with ((A' - (o + PI * dt')) + (- (A - (o + PI * dt)) + PI * (dt' - (dt + 2))))
    by ring.
  eapply Rle_trans; [apply Rabs_triang|].
  eapply Rle_trans; [apply Rplus_le_compat; [apply Rle_refl | apply Rabs_triang]|].
  rewrite Rabs_Ropp, (Rabs_mult PI), (Rabs_pos_eq PI) by lra.
  set (X := Rabs o) in *. set (D := Rabs dt) in *. set (D2 := Rabs (dt + 2)) in *.
  set (D' := Rabs dt') in *. set (S2 := Rabs (dt' - (dt + 2))) in *.
  assert (K1 : 0 <= PI * D) by nra. assert (K2 : 0 <= PI * D2) by nra.
  assert (K3 : PI * S2 <= u * (PI * D2)) by nra.
  assert (K4 : PI * D' <= PI * D2 + u * (PI * D2)) by nra.
  replace (PI * (D + D2)) with (PI * D + PI * D2) by ring.
  set (P := PI * D) in *. set (P2 := PI * D2) in *. set (P' := PI * D') in *.
  set (PS := PI * S2) in *.
  assert (K5 : 0 <= u * X) by nra. assert (K6 : 0 <= u * P) by nra.
  assert (K7 : 0 <= u * P2) by nra.
  assert (K8 : u * P' <= u * P2 + u * (u * P2)) by nra.
  assert (K9 : u * (u * P2) <= u * P2 / 1000) by nra.
  nra.
Qed.

(** One frame: the clock is read, the elapsed time computed, the angle advanced. *)
Lemma elapsed_rel (now prev : R) :
  rel_error (21 / 10 * u) (elapsed fl now prev) ((now - prev) / 1000).
Proof using u_range fl_error.
  unfold elapsed.
  assert (H1 : rel_error u (fl (now - prev)) (now - prev)).
  { eapply rel_error_weaken; [apply (rel_error_fl fl u u_range fl_error), rel_error_refl|]. lra. }
  eapply rel_error_weaken;
    [apply (rel_error_fl fl u u_range fl_error), rel_error_div_const, H1|]. nra.
Qed.

Lemma frame_error (angle : option R) (A e now prev : R) :
  Rabs (or_zero angle - A) <= e ->
  Rabs (advance fl Math_PI angle (elapsed fl now prev) - (A + PI * ((now - prev) / 1000)))
  <= (1 + u) * (e + 13 * u * (PI * (Rabs (now - prev) / 1000)))
     + u * Rabs (A + PI * ((now - prev) / 1000)).
Proof using u_range fl_error PI_error.
  intros He. unfold advance.
  set (d := elapsed fl now prev).
  set (T := fl (fl (speed fl Math_PI * d) / radius fl)).
  set (D := (now - prev) / 1000).
  assert (HT : rel_error (13 * u) T (PI * D)).
  { eapply rel_error_weaken.
    - eapply rel_error_trans;
        [apply (rel_error_increment fl Math_PI u u_range fl_error PI_error d)|].
      apply rel_error_scale. apply elapsed_rel.
    - nra. }
  apply rel_error_abs in HT.
  pose proof PI_RGT_0 as Hpi.
  rewrite Rabs_mult, (Rabs_pos_eq PI) in HT by lra.
  assert (HD : Rabs D = Rabs (now - prev) / 1000).
  { unfold D, Rdiv. rewrite Rabs_mult, (Rabs_pos_eq (/ 1000)) by lra. reflexivity. }
  rewrite HD in HT.
  set (o := or_zero angle) in *.
  pose proof (fl_error (o + T)) as Hfl.
  assert (Hy : Rabs (o + T - (A + PI * D))
               <= e + 13 * u * (PI * (Rabs (now - prev) / 1000))).
  { replace (o + T - (A + PI * D)) with ((o - A) + (T - PI * D)) by ring.
    eapply Rle_trans; [apply Rabs_triang|]. lra. }
  assert (Hyabs : Rabs (o + T) <= Rabs (A + PI * D)
                                  + (e + 13 * u * (PI * (Rabs (now - prev) / 1000)))).
  { replace (o + T) with ((o + T - (A + PI * D)) + (A + PI * D)) by ring.
    eapply Rle_trans; [apply Rabs_triang|]. lra. }
  replace (fl (o + T) - (A + PI * D))
    with ((fl (o + T) - (o + T)) + (o + T - (A + PI * D))) by ring.
  eapply Rle_trans; [apply Rabs_triang|].
  set (W := Rabs (A + PI * D)) in *.
  set (G := e + 13 * u * (PI * (Rabs (now - prev) / 1000))) in *.
  set (Y := Rabs (o + T)) in *.
  assert (u * Y <= u * (W + G)) by nra.
  nra.
Qed.

Lemma run_snoc (ts : list R) (t : R) (s : R * option R) :
  run fl Math_PI (ts ++ [t]) s = frame fl Math_PI (run fl Math_PI ts s) t.
Proof. unfold run. rewrite fold_left_app. reflexivity. Qed.

Lemma run_error (t0 : R) (ts : list R) :
  fst (run fl Math_PI ts (t0, None)) = List.last ts t0
  /\ Rabs (or_zero (snd (run fl Math_PI ts (t0, None))) - PI * ((List.last ts t0 - t0) / 1000))
     <= drift u (length ts) * (PI * (variation t0 ts / 1000)).
Proof using u_range fl_error PI_error.
  induction ts as [|t ts IH] using rev_ind.
  - cbn [run fold_left fst snd List.last length variation].
    change (or_zero None) with 0.
    split; [reflexivity|].
    replace (0 - PI * ((t0 - t0) / 1000)) with 0 by (unfold Rdiv; ring).
    rewrite Rabs_R0. lra.
  - destruct IH as [Hlast IH].
    rewrite run_snoc. unfold frame at 1 2. cbn [fst snd].
    rewrite last_last. split; [reflexivity|].
    rewrite Hlast.
    change (or_zero (Some ?x)) with x.
    pose proof (frame_error (snd (run fl Math_PI ts (t0, None)))
                  (PI * ((List.last ts t0 - t0) / 1000)) _ t (List.last ts t0) IH) as Hstep.
    replace (PI * ((List.last ts t0 - t0) / 1000) + PI * ((t - List.last ts t0) / 1000))
      with (PI * ((t - t0) / 1000)) in Hstep by (unfold Rdiv; ring).
    eapply Rle_trans; [exact Hstep|].
    rewrite variation_snoc, length_app. cbn [length].
    replace (length ts + 1)%nat with (S (length ts)) by lia.
    unfold drift. cbn [pow].
    set (p := (1 + u) ^ length ts).
    assert (Hp : 1 <= p) by (apply pow_R1_Rle; lra).
    pose proof (variation_pos t0 ts) as HV.
    pose proof (Rabs_pos (t - List.last ts t0)) as HD.
    pose proof PI_RGT_0 as Hpi.
    assert (HA : Rabs (PI * ((t - t0) / 1000))
                 <= PI * ((variation t0 ts + Rabs (t - List.last ts t0)) / 1000)).
    { unfold Rdiv. rewrite !Rabs_mult, (Rabs_pos_eq PI), (Rabs_pos_eq (/ 1000)) by lra.
      assert (Rabs (t - t0) <= variation t0 ts + Rabs (t - List.last ts t0)).
      { replace (t - t0) with ((t - List.last ts t0) + (List.last ts t0 - t0)) by ring.
        eapply Rle_trans; [apply Rabs_triang|].
        pose proof (variation_span t0 ts). lra. }
      nra. }
    set (V := variation t0 ts) in *. set (Dk := Rabs (t - List.last ts t0)) in *.
    set (W := Rabs (PI * ((t - t0) / 1000))) in *.
    assert (K1 : 0 <= PI * V) by nra. assert (K2 : 0 <= PI * Dk) by nra.
    assert (K3 : 0 <= u * (PI * V)) by nra. assert (K4 : 0 <= u * (PI * Dk)) by nra.
    assert (K5 : 0 <= u * (u * (PI * Dk))) by nra.
    assert (K6 : PI * V <= p * (PI * V)) by nra.
    assert (K7 : PI * Dk <= p * (PI * Dk)) by nra.
    assert (K8 : u * (PI * V) <= p * (u * (PI * V))) by nra.
    assert (K9 : u * (PI * Dk) <= p * (u * (PI * Dk))) by nra.
    assert (K10 : u * (u * (PI * Dk)) <= p * (u * (u * (PI * Dk)))) by nra.
    assert (K11 : 0 <= p * (u * (u * (PI * V)))) by nra.
    assert (K12 : u * W <= u * (PI * ((V + Dk) / 1000))) by nra.
    nra.
Qed.


Section Positions.

Variable Math_cos Math_sin : R -> R.
Variable v : R.

Hypothesis v_range : 0 <= v <= 1.
Hypothesis cos_error : forall x, Rabs (Math_cos x - cos x) <= v.
Hypothesis sin_error : forall x, Rabs (Math_sin x - sin x) <= v.

(** Two stored positions are as close as the cosines (or sines) of their
    angles, up to the rounding of the two products. *)
Lemma position_x_close (a b : R) :
  Rabs (position_x fl Math_cos a - position_x fl Math_cos b)
  <= 128 * Rabs (cos a - cos b) + 256 * (v + 5 * u).
Proof using u_range fl_error v_range cos_error.
  pose proof (position_x_error fl u u_range fl_error Math_cos v v_range cos_error a) as Ha.
  pose proof (position_x_error fl u u_range fl_error Math_cos v v_range cos_error b) as Hb.
  replace (position_x fl Math_cos a - position_x fl Math_cos b)
    with ((position_x fl Math_cos a - 128 * cos a)
          - (position_x fl Math_cos b - 128 * cos b)
          + 128 * (cos a - cos b)) by ring.
  eapply Rle_trans; [apply Rabs_triang|].
  eapply Rle_trans; [apply Rplus_le_compat; [apply Rabs_triang | apply Rle_refl]|].
  rewrite Rabs_Ropp, Rabs_mult, (Rabs_pos_eq 128) by lra. lra.
Qed.

Lemma position_z_close (a b : R) :
  Rabs (position_z fl Math_sin a - position_z fl Math_sin b)
  <= 128 * Rabs (sin a - sin b) + 256 * (v + 5 * u).
Proof using u_range fl_error v_range sin_error.
  pose proof (position_z_error fl u u_range fl_error Math_sin v v_range sin_error a) as Ha.
  pose proof (position_z_error fl u u_range fl_error Math_sin v v_range sin_error b) as Hb.
  replace (position_z fl Math_sin a - position_z fl Math_sin b)
    with ((position_z fl Math_sin a - 128 * sin a)
          - (position_z fl Math_sin b - 128 * sin b)
          + 128 * (sin a - sin b)) by ring.
  eapply Rle_trans; [apply Rabs_triang|].
  eapply Rle_trans; [apply Rplus_le_compat; [apply Rabs_triang | apply Rle_refl]|].
  rewrite Rabs_Ropp, Rabs_mult, (Rabs_pos_eq 128) by lra. lra.
Qed.

(** X5: [stepAgent] composes additively up to rounding.  In an arithmetic
    whose operations have a relative error of at most [u], with [Math.PI]
    within [u] of pi and [Math.cos], [Math.sin] within [v] of the cosine and
    the sine, the angle stored after a step by [dt1] and one by [dt2]
    differs from the angle stored after a single step by their sum (the
    exact sum or a rounded one) by at most [40 * u * M], where [M] is the
    size of the angles involved, and the two positions of the sphere differ
    accordingly. *)
Theorem stepAgent_additive (angle : option R) (dt1 dt2 dt12 : R) :
  Rabs (dt12 - (dt1 + dt2)) <= u * Rabs (dt1 + dt2) ->
  let A1 := advance fl Math_PI angle dt1 in
  let A2 := advance fl Math_PI (Some A1) dt2 in
  let A12 := advance fl Math_PI angle dt12 in
  let M := Rabs (or_zero angle) + PI * (Rabs dt1 + Rabs dt2) in
  Rabs (A2 - A12) <= 40 * u * M
  /\ Rabs (position_x fl Math_cos A2 - position_x fl Math_cos A12)
     <= 128 * (40 * u * M) + 256 * (v + 5 * u)
  /\ Rabs (position_z fl Math_sin A2 - position_z fl Math_sin A12)
     <= 128 * (40 * u * M) + 256 * (v + 5 * u).
Proof using u_range fl_error PI_error v_range cos_error sin_error.
  intros Hsum A1 A2 A12 M.
  pose proof (additive_angle angle dt1 dt2 dt12 Hsum) as Hangle.
  fold A1 A2 A12 M in Hangle.
  split; [exact Hangle|]. split.
  - eapply Rle_trans; [apply position_x_close|].
    pose proof (cos_lipschitz A2 A12). lra.
  - eapply Rle_trans; [apply position_z_close|].
    pose proof (sin_lipschitz A2 A12). lra.
Qed.

(** X6: the agent goes round once every two seconds, up to rounding.  In
    such an arithmetic the angle stored by a step of [dt + 2] (the exact sum
    or a rounded one) is the angle stored by a step of [dt] plus a full
    turn, up to [14 * u * M], and the two positions of the sphere differ
    accordingly. *)
Theorem stepAgent_period (angle : option R) (dt dt' : R) :
  Rabs (dt' - (dt + 2)) <= u * Rabs (dt + 2) ->
  let A := advance fl Math_PI angle dt in
  let A' := advance fl Math_PI angle dt' in
  let M := 2 * Rabs (or_zero angle) + PI * (Rabs dt + Rabs (dt + 2)) in
  Rabs (A' - 2 * PI - A) <= 14 * u * M
  /\ Rabs (position_x fl Math_cos A' - position_x fl Math_cos A)
     <= 128 * (14 * u * M) + 256 * (v + 5 * u)
  /\ Rabs (position_z fl Math_sin A' - position_z fl Math_sin A)
     <= 128 * (14 * u * M) + 256 * (v + 5 * u).
Proof using u_range fl_error PI_error v_range cos_error sin_error.
  intros Hsum A A' M.
  pose proof (period_angle angle dt dt' Hsum) as Hangle.
  fold A A' M in Hangle.
  split; [exact Hangle|]. split.
  - eapply Rle_trans; [apply position_x_close|].
    rewrite <- (cos_minus_2PI A').
    pose proof (cos_lipschitz (A' - 2 * PI) A). lra.
  - eapply Rle_trans; [apply position_z_close|].
    rewrite <- (sin_minus_2PI A').
    pose proof (sin_lipschitz (A' - 2 * PI) A). lra.
Qed.

End Positions.

End RoundingTheorems.

(** With no rounding, the real pi and the real cosine and sine, the
    operations written out in [Rounded] are those of [stepAgent] and of the
    first lines of [animate]. *)
Section Unrounded.

Local Open Scope R_scope.
Import Scene Rounded.

Variable heightmap_shader :
  gmap string value -> gmap loc object -> list R -> list R.

Lemma stepAgent_unrounded (dt : R) (st : state) (p : Vector3) :
  vector3_at sphere_position (objects st) = Some p ->
  exists st',
    stepAgent dt st = Some st'
    /\ currentAngle st' = Some (advance (fun x => x) PI (currentAngle st) dt)
    /\ vector3_at sphere_position (objects st')
       = Some (V3 (position_x (fun x => x) cos
                     (advance (fun x => x) PI (currentAngle st) dt))
                  (vy p)
                  (position_z (fun x => x) sin
                     (advance (fun x => x) PI (currentAngle st) dt))).
Proof.
  intros Hp. unfold stepAgent. rewrite Hp. cbn [mbind option_bind].
  eexists. split; [reflexivity|].
  cbn [log currentAngle objects].
  split; [reflexivity|]. apply vector3_at_insert.
Qed.

Lemma frames_unrounded (nows : list R) (st : state) :
  settled st ->
  exists st',
    frames heightmap_shader nows st = Some st'
    /\ settled st'
    /\ run (fun x => x) PI nows (lastTimestamp st, currentAngle st)
       = (lastTimestamp st', currentAngle st').
Proof.
  revert st; induction nows as [|t nows IH]; intros st Hst.
  - exists st. split; [reflexivity|]. split; [exact Hst | reflexivity].
  - destruct (animate_clock heightmap_shader t st Hst)
      as (st1 & p & Hrun & Hst1 & Hlt & _ & Hca & _).
    destruct (IH st1 Hst1) as (st' & Hrest & Hst' & Heq).
    exists st'. cbn [frames]. rewrite Hrun. cbn [mbind option_bind].
    split; [exact Hrest|]. split; [exact Hst'|].
    rewrite <- Heq. unfold run. cbn [fold_left]. f_equal.
    unfold frame. cbn [fst snd]. rewrite Hlt, Hca. do 2 f_equal.
    unfold advance, elapsed, speed, radius, BOUNDS. field.
Qed.

End Unrounded.

Section FollowsClock.

Local Open Scope R_scope.
Import Scene Rounded.

Variable heightmap_shader :
  gmap string value -> gmap loc object -> list R -> list R.
Variable simplex_noise : R -> R -> R.

Variable fl : R -> R.
Variable Math_PI : R.
Variable u : R.

Hypothesis u_range : 0 <= u <= 1 / 1000.
Hypothesis fl_error : forall x, Rabs (fl x - x) <= u * Rabs x.
Hypothesis PI_error : Rabs (Math_PI - PI) <= u * PI.

(** X7: the agent follows the clock, not the frame rate, up to rounding.
    After a setup in which the compute renderer started and any frames, the
    last one at time [now], [lastTimestamp] is [now] and the sphere stands
    at the stored angle on its circle, at height 0.  The stored angle is
    the one that the operations of [animate] and [stepAgent] accumulate
    over the frames; in an arithmetic whose operations have a relative
    error of at most [u] it differs from pi times the seconds between the
    loading of the module and [now] by at most the drift of that many
    frames times pi times the time the clock has moved. *)
Theorem agent_follows_clock (e : env) (nows : list R) (now : R) :
  phong_ok e = true ->
  init_error e = None ->
  exists st0 st theta a,
    setup simplex_noise e = Some st0
    /\ frames heightmap_shader (nows ++ [now]) st0 = Some st
    /\ lastTimestamp st = now
    /\ currentAngle st = Some theta
    /\ vector3_at sphere_position (objects st)
       = Some (V3 (128 * cos theta) 0 (128 * sin theta))
    /\ run (fun x => x) PI (nows ++ [now]) (load_time e, None) = (now, Some theta)
    /\ run fl Math_PI (nows ++ [now]) (load_time e, None) = (now, Some a)
    /\ Rabs (a - PI * ((now - load_time e) / 1000))
       <= drift u (length (nows ++ [now]))
          * (PI * (variation (load_time e) (nows ++ [now]) / 1000)).
Proof using u_range fl_error PI_error.
  intros Hphong Hinit.
  pose proof (setup_spec simplex_noise e Hphong) as Hsetup.
  pose proof (after_setup_settled simplex_noise e Hinit) as Hst0.
  destruct (frames_clock heightmap_shader nows _ Hst0)
    as (st1 & p & p1 & Hrun & Hst1 & _ & Hp & Hp1 & Hy & _).
  destruct (animate_clock heightmap_shader now st1 Hst1)
    as (st & q & Hlast & _ & Hlt & _ & Hca & Hq1 & Hpos & _).
  rewrite Hp1 in Hq1. injection Hq1 as <-.
  cbn [after_setup objects] in Hp. unfold setup_objects in Hp.
  rewrite !vector3_at_insert_ne in Hp by done.
  rewrite vector3_at_insert in Hp. injection Hp as <-. cbn [vy] in Hy.
  rewrite Hy in Hpos.
  assert (Hframes : frames heightmap_shader (nows ++ [now]) (after_setup simplex_noise e)
                    = Some st)
    by (rewrite frames_snoc, Hrun; exact Hlast).
  destruct (frames_unrounded heightmap_shader (nows ++ [now]) _ Hst0)
    as (st' & Hframes' & _ & Hexact).
  rewrite Hframes in Hframes'. injection Hframes' as <-.
  cbn [after_setup lastTimestamp currentAngle] in Hexact.
  pose proof (run_error fl Math_PI u u_range fl_error PI_error
                (load_time e) (nows ++ [now])) as [Hfst Herr].
  rewrite last_last in Hfst, Herr.
  rewrite (run_snoc fl Math_PI) in Hfst, Herr.
  unfold frame at 1 in Herr. cbn [snd] in Herr. change (or_zero (Some ?x)) with x in Herr.
  eexists. exists st. eexists. eexists.
  split; [exact Hsetup|].
  split; [exact Hframes|].
  split; [exact Hlt|].
  split; [exact Hca|].
  split; [exact Hpos|].
  split; [rewrite Hexact, Hlt, Hca; reflexivity|].
  split; [rewrite (run_snoc fl Math_PI); reflexivity|].
  exact Herr.
Qed.

End FollowsClock.

(** The sample arithmetic is within the error model for [u = 1/1000]. *)
Section SampleArithmetic.

Local Open Scope R_scope.
Import Scene Rounded.

Lemma sample_u_range : 0 <= 1 / 1000 <= 1 / 1000.
Proof. lra. Qed.

Lemma sample_fl_error (x : R) : Rabs (sample_fl x - x) <= 1 / 1000 * Rabs x.
Proof.
  unfold sample_fl. replace (x * (1 + 1 / 2000) - x) with (x * (1 / 2000)) by ring.
  rewrite Rabs_mult, (Rabs_pos_eq (1 / 2000)) by lra.
  pose proof (Rabs_pos x). lra.
Qed.

Lemma sample_PI_error : Rabs (sample_fl PI - PI) <= 1 / 1000 * PI.
Proof.
  pose proof (sample_fl_error PI) as H. pose proof PI_RGT_0.
  rewrite (Rabs_pos_eq PI) in H by lra. exact H.
Qed.

Lemma sample_v_range : 0 <= 1 / 1000 <= 1.
Proof. lra. Qed.

Lemma sample_cos_error (x : R) : Rabs (cos x - cos x) <= 1 / 1000.
Proof. replace (cos x - cos x) with 0 by ring. rewrite Rabs_R0. lra. Qed.

Lemma sample_sin_error (x : R) : Rabs (sin x - sin x) <= 1 / 1000.
Proof. replace (sin x - sin x) with 0 by ring. rewrite Rabs_R0. lra. Qed.

Lemma stepAgent_additive_witness :
  0 <= 1 / 1000 <= 1 / 1000
  /\ (forall x, Rabs (sample_fl x - x) <= 1 / 1000 * Rabs x)
  /\ Rabs (sample_fl PI - PI) <= 1 / 1000 * PI
  /\ 0 <= 1 / 1000 <= 1
  /\ (forall x, Rabs (cos x - cos x) <= 1 / 1000)
  /\ (forall x, Rabs (sin x - sin x) <= 1 / 1000)
  /\ Rabs (sample_fl (0.1 + 0.2) - (0.1 + 0.2)) <= 1 / 1000 * Rabs (0.1 + 0.2)
  /\ let A1 := advance sample_fl (sample_fl PI) (Some 1) 0.1 in
     let A2 := advance sample_fl (sample_fl PI) (Some A1) 0.2 in
     let A12 := advance sample_fl (sample_fl PI) (Some 1) (sample_fl (0.1 + 0.2)) in
     let M := Rabs (or_zero (Some 1)) + PI * (Rabs 0.1 + Rabs 0.2) in
     Rabs (A2 - A12) <= 40 * (1 / 1000) * M
     /\ Rabs (position_x sample_fl cos A2 - position_x sample_fl cos A12)
        <= 128 * (40 * (1 / 1000) * M) + 256 * (1 / 1000 + 5 * (1 / 1000))
     /\ Rabs (position_z sample_fl sin A2 - position_z sample_fl sin A12)
        <= 128 * (40 * (1 / 1000) * M) + 256 * (1 / 1000 + 5 * (1 / 1000)).
Proof.
  split; [exact sample_u_range|]. split; [exact sample_fl_error|].
  split; [exact sample_PI_error|]. split; [exact sample_v_range|].
  split; [exact sample_cos_error|]. split; [exact sample_sin_error|].
  split; [exact (sample_fl_error (0.1 + 0.2))|].
  exact (stepAgent_additive sample_fl (sample_fl PI) (1 / 1000)
           sample_u_range sample_fl_error sample_PI_error
           cos sin (1 / 1000) sample_v_range sample_cos_error sample_sin_error
           (Some 1) 0.1 0.2 (sample_fl (0.1 + 0.2)) (sample_fl_error (0.1 + 0.2))).
Defined.

Lemma stepAgent_period_witness :
  0 <= 1 / 1000 <= 1 / 1000
  /\ (forall x, Rabs (sample_fl x - x) <= 1 / 1000 * Rabs x)
  /\ Rabs (sample_fl PI - PI) <= 1 / 1000 * PI
  /\ 0 <= 1 / 1000 <= 1
  /\ (forall x, Rabs (cos x - cos x) <= 1 / 1000)
  /\ (forall x, Rabs (sin x - sin x) <= 1 / 1000)
  /\ Rabs (sample_fl (0.5 + 2) - (0.5 + 2)) <= 1 / 1000 * Rabs (0.5 + 2)
  /\ let A := advance sample_fl (sample_fl PI) None 0.5 in
     let A' := advance sample_fl (sample_fl PI) None (sample_fl (0.5 + 2)) in
     let M := 2 * Rabs (or_zero None) + PI * (Rabs 0.5 + Rabs (0.5 + 2)) in
     Rabs (A' - 2 * PI - A) <= 14 * (1 / 1000) * M
     /\ Rabs (position_x sample_fl cos A' - position_x sample_fl cos A)
        <= 128 * (14 * (1 / 1000) * M) + 256 * (1 / 1000 + 5 * (1 / 1000))
     /\ Rabs (position_z sample_fl sin A' - position_z sample_fl sin A)
        <= 128 * (14 * (1 / 1000) * M) + 256 * (1 / 1000 + 5 * (1 / 1000)).
Proof.
  split; [exact sample_u_range|]. split; [exact sample_fl_error|].
  split; [exact sample_PI_error|]. split; [exact sample_v_range|].
  split; [exact sample_cos_error|]. split; [exact sample_sin_error|].
  split; [exact (sample_fl_error (0.5 + 2))|].
  exact (stepAgent_period sample_fl (sample_fl PI) (1 / 1000)
           sample_u_range sample_fl_error sample_PI_error
           cos sin (1 / 1000) sample_v_range sample_cos_error sample_sin_error
           None 0.5 (sample_fl (0.5 + 2)) (sample_fl_error (0.5 + 2))).
Defined.

Lemma agent_follows_clock_witness :
  0 <= 1 / 1000 <= 1 / 1000
  /\ (forall x, Rabs (sample_fl x - x) <= 1 / 1000 * Rabs x)
  /\ Rabs (sample_fl PI - PI) <= 1 / 1000 * PI
  /\ phong_ok sample_env = true
  /\ init_error sample_env = None
  /\ exists st0 st theta a,
    setup sample_noise sample_env = Some st0
    /\ frames sample_shader ([16; 33] ++ [50]) st0 = Some st
    /\ lastTimestamp st = 50
    /\ currentAngle st = Some theta
    /\ vector3_at sphere_position (objects st)
       = Some (V3 (128 * cos theta) 0 (128 * sin theta))
    /\ run (fun x => x) PI ([16; 33] ++ [50]) (load_time sample_env, None)
       = (50, Some theta)
    /\ run sample_fl (sample_fl PI) ([16; 33] ++ [50]) (load_time sample_env, None)
       = (50, Some a)
    /\ Rabs (a - PI * ((50 - load_time sample_env) / 1000))
       <= drift (1 / 1000) (length ([16; 33] ++ [50]))
          * (PI * (variation (load_time sample_env) ([16; 33] ++ [50]) / 1000)).
Proof.
  split; [exact sample_u_range|]. split; [exact sample_fl_error|].
  split; [exact sample_PI_error|].
  split; [reflexivity|]. split; [reflexivity|].
  exact (agent_follows_clock sample_shader sample_noise sample_fl (sample_fl PI)
           (1 / 1000) sample_u_range sample_fl_error sample_PI_error
           sample_env [16; 33] 50 eq_refl eq_refl).
Defined.

End SampleArithmetic.

(** * World matrices and a renderer that did not start *)

Section WorldMatrices.

Local Open Scope R_scope.
Import Scene.

Variable heightmap_shader :
  gmap string value -> gmap loc object -> list R -> list R.
Variable simplex_noise : R -> R -> R.

Ltac matrix_entries :=
  cbn [n11 n12 n13 n14 n21 n22 n23 n24 n31 n32 n33 n34 n41 n42 n43 n44
       vx vy vz qx qy qz qw].

Lemma determinant_identity4 : determinant identity4 = 1.
Proof. unfold determinant, det3, identity4. matrix_entries. lra. Qed.

(** The sphere's matrix is the translation to its position. *)
Lemma sphere_matrix_translation (p : Vector3) :
  sphere_matrix p = M4 1 0 0 (vx p)  0 1 0 (vy p)  0 0 1 (vz p)  0 0 0 1.
Proof.
  unfold sphere_matrix, compose. matrix_entries.
  f_equal; lra.
Qed.

Lemma determinant_sphere_matrix (p : Vector3) : determinant (sphere_matrix p) = 1.
Proof.
  rewrite sphere_matrix_translation. unfold determinant, det3. matrix_entries. lra.
Qed.

(** The plane's matrix is a rotation followed by a translation. *)
Lemma determinant_plane_matrix : determinant plane_matrix = 1.
Proof.
  unfold plane_matrix, compose, setFromEuler, determinant, det3. matrix_entries.
  replace (0 / 2) with 0 by lra. rewrite cos_0, sin_0.
  pose proof (sin2_cos2 (- PI / 2 / 2)) as Hsc. unfold Rsqr in Hsc.
  set (s := sin (- PI / 2 / 2)) in *. set (c := cos (- PI / 2 / 2)) in *.
  nra.
Qed.

(** One frame of a settled state that holds the sphere's world matrix: the
    renderer leaves both world matrices up to date. *)
Lemma animate_world (now : R) (st : state) :
  settled st ->
  is_Some (objects st !! sphere_matrixWorld) ->
  exists st' p',
    animate heightmap_shader now st = Some st'
    /\ settled st'
    /\ vector3_at sphere_position (objects st') = Some p'
    /\ objects st' !! plane_matrixWorld = Some (OMatrix4 plane_matrix)
    /\ objects st' !! sphere_matrixWorld = Some (OMatrix4 (sphere_matrix p')).
Proof.
  intros Hst Hm.
  destruct (animate_settled heightmap_shader now st Hst) as (st' & Hrun & Hst' & _).
  destruct st as [lt dt ca o wu au hu g tr].
  destruct Hst as [Hready _ _ _ _].
  destruct (ready_objects _ _ _ _ _ _ _ _ _ Hready) as (p & cam & M & Hp & Hcam & HM).
  pose proof (animate_spec heightmap_shader now _ _ _ _ _ _ _ _ _ p cam M
                Hready Hp Hcam HM) as Hspec.
  cbv zeta in Hspec.
  set (angle := or_zero ca + 2 * PI * (BOUNDS / 4) / 2 * ((now - lt) / 1000) / (BOUNDS / 4)) in *.
  rewrite Hspec in Hrun. injection Hrun as <-.
  cbn [objects] in Hm.
  eexists. exists (V3 (BOUNDS / 4 * cos angle) (vy p) (BOUNDS / 4 * sin angle)).
  split; [exact Hspec|]. split; [exact Hst'|].
  cbn [objects].
  split.
  { rewrite updateMatrixWorld_vector3 by done.
    rewrite vector3_at_insert_ne by done. apply vector3_at_insert. }
  split.
  { apply updateMatrixWorld_plane. rewrite !lookup_insert_ne by done. eauto. }
  apply updateMatrixWorld_sphere.
  - rewrite !lookup_insert_ne by done. exact Hm.
  - rewrite vector3_at_insert_ne by done. apply vector3_at_insert.
Qed.

Lemma frames_world (nows : list R) (st : state) :
  settled st ->
  is_Some (objects st !! sphere_matrixWorld) ->
  exists st',
    frames heightmap_shader nows st = Some st'
    /\ settled st'
    /\ is_Some (objects st' !! sphere_matrixWorld).
Proof.
  revert st; induction nows as [|t nows IH]; intros st Hst Hm.
  - exists st. split; [reflexivity|]. split; assumption.
  - destruct (animate_world t st Hst Hm) as (st1 & p1 & Hrun & Hst1 & _ & _ & Hm1).
    destruct (IH st1 Hst1) as (st' & Hrest & Hst' & Hm'); [rewrite Hm1; eauto|].
    exists st'. cbn [frames]. rewrite Hrun. cbn [mbind option_bind].
    split; [exact Hrest|]. split; assumption.
Qed.

(** X18: the world matrices that the uniforms refer to.  The setup leaves
    both at the identity they are created with; the first draw call, and
    every one after it, leaves the plane's at its placement and the sphere's
    at the translation to where the sphere stands.  The simulation pass of
    the first frame is therefore issued with the identity as water-to-world
    transform, and every later pass with the plane's placement.  None of
    these matrices is singular. *)
Theorem world_matrices (e : env) (nows : list R) (now next : R) :
  phong_ok e = true ->
  init_error e = None ->
  exists st0 pre0 st p pre,
    setup simplex_noise e = Some st0
    /\ stepAgent (deltaTime (tick now st0)) (tick now st0) = Some pre0
    /\ objects pre0 !! plane_matrixWorld = Some (OMatrix4 identity4)
    /\ objects pre0 !! sphere_matrixWorld = Some (OMatrix4 identity4)
    /\ frames heightmap_shader (nows ++ [now]) st0 = Some st
    /\ vector3_at sphere_position (objects st) = Some p
    /\ objects st !! plane_matrixWorld = Some (OMatrix4 plane_matrix)
    /\ objects st !! sphere_matrixWorld = Some (OMatrix4 (sphere_matrix p))
    /\ sphere_matrix p = M4 1 0 0 (vx p)  0 1 0 (vy p)  0 0 1 (vz p)  0 0 0 1
    /\ stepAgent (deltaTime (tick next st)) (tick next st) = Some pre
    /\ objects pre !! plane_matrixWorld = Some (OMatrix4 plane_matrix)
    /\ determinant identity4 <> 0
    /\ determinant plane_matrix <> 0
    /\ determinant (sphere_matrix p) <> 0.
Proof.
  intros Hphong Hinit.
  pose proof (setup_spec simplex_noise e Hphong) as Hsetup.
  pose proof (after_setup_settled simplex_noise e Hinit) as Hst0.
  assert (Hm0 : is_Some (objects (after_setup simplex_noise e) !! sphere_matrixWorld)).
  { cbn [after_setup objects]. unfold setup_objects.
    rewrite !lookup_insert_ne by done. rewrite lookup_insert_eq. eauto. }
  destruct (frames_world nows _ Hst0 Hm0) as (st1 & Hrun & Hst1 & Hm1).
  destruct (animate_world now st1 Hst1 Hm1) as (st & p & Hlast & Hst & Hp & Hplane & Hsphere).
  assert (Hstep : forall t s q, vector3_at sphere_position (objects s) = Some q ->
            exists pre, stepAgent (deltaTime (tick t s)) (tick t s) = Some pre
                        /\ (forall l, l <> sphere_position ->
                              objects pre !! l = objects s !! l)).
  { intros t s q Hq. unfold stepAgent, tick.
    cbn [log deltaTime objects lastTimestamp currentAngle].
    rewrite Hq. cbn [mbind option_bind]. eexists. split; [reflexivity|].
    intros l Hl. cbn [log objects]. rewrite lookup_insert_ne by done. reflexivity. }
  destruct (Hstep now (after_setup simplex_noise e) (V3 0 0 0)) as (pre0 & Hpre0 & Hkeep0).
  { cbn [after_setup objects]. unfold setup_objects. find_object. }
  destruct (Hstep next st p Hp) as (pre & Hpre & Hkeep).
  exists (after_setup simplex_noise e), pre0, st, p, pre.
  split; [exact Hsetup|].
  split; [exact Hpre0|].
  split.
  { rewrite Hkeep0 by done. cbn [after_setup objects]. unfold setup_objects.
    rewrite lookup_insert_ne by done. apply lookup_insert_eq. }
  split.
  { rewrite Hkeep0 by done. cbn [after_setup objects]. unfold setup_objects.
    rewrite !lookup_insert_ne by done. apply lookup_insert_eq. }
  split; [rewrite frames_snoc, Hrun; exact Hlast|].
  split; [exact Hp|].
  split; [exact Hplane|].
  split; [exact Hsphere|].
  split; [apply sphere_matrix_translation|].
  split; [exact Hpre|].
  split; [rewrite Hkeep by done; exact Hplane|].
  rewrite determinant_identity4, determinant_plane_matrix, determinant_sphere_matrix.
  repeat apply conj; lra.
Qed.

(** X17: when [gpuCompute.init()] has returned an error, the setup still
    runs to its end, but the first frame does not: the agent is moved, and
    [gpuCompute.compute()] throws for want of render targets, so nothing is
    bound and nothing is drawn; [init] ends with that exception. *)
Theorem failed_init_frame_throws (e : env) (error : string) (now : R) :
  phong_ok e = true ->
  init_error e = Some error ->
  exists st pre,
    setup simplex_noise e = Some st
    /\ has_targets (gpuCompute st) = false
    /\ stepAgent (deltaTime (tick now st)) (tick now st) = Some pre
    /\ compute heightmap_shader pre = None
    /\ render heightmap_shader pre = None
    /\ animate heightmap_shader now st = None
    /\ init heightmap_shader simplex_noise e now = None.
Proof.
  intros Hphong Herror.
  pose proof (setup_spec simplex_noise e Hphong) as Hsetup.
  assert (Hgpu : gpuCompute (after_setup simplex_noise e) = Gpu [] [] false false).
  { cbn [after_setup gpuCompute]. rewrite Herror. reflexivity. }
  assert (Hp : vector3_at sphere_position (objects (after_setup simplex_noise e))
               = Some (V3 0 0 0)).
  { cbn [after_setup objects]. unfold setup_objects. find_object. }
  assert (Hstep : exists pre,
            stepAgent (deltaTime (tick now (after_setup simplex_noise e)))
                      (tick now (after_setup simplex_noise e)) = Some pre
            /\ gpuCompute pre = Gpu [] [] false false).
  { unfold stepAgent, tick.
    cbn [log deltaTime objects lastTimestamp currentAngle gpuCompute] in *.
    rewrite Hp. cbn [mbind option_bind]. eexists. split; [reflexivity|].
    cbn [log gpuCompute]. exact Hgpu. }
  destruct Hstep as (pre & Hpre & Hgpu').
  assert (Hcompute : compute heightmap_shader pre = None).
  { unfold compute. rewrite Hgpu'. reflexivity. }
  assert (Hrender : render heightmap_shader pre = None).
  { unfold render. rewrite Hcompute. reflexivity. }
  assert (Hanimate : animate heightmap_shader now (after_setup simplex_noise e) = None).
  { unfold animate. rewrite Hpre. cbn [mbind option_bind].
    rewrite Hrender. reflexivity. }
  exists (after_setup simplex_noise e), pre.
  split; [exact Hsetup|].
  split; [rewrite Hgpu; reflexivity|].
  split; [exact Hpre|].
  split; [exact Hcompute|].
  split; [exact Hrender|].
  split; [exact Hanimate|].
  unfold init. rewrite Hsetup. exact Hanimate.
Qed.

End WorldMatrices.

(** * More on the setup and on what a frame needs *)

Lemma dom_insert_present (k : string) (v : Scene.value) (u : gmap string Scene.value) :
  is_Some (u !! k) -> dom (<[k := v]> u) = dom u.
Proof.
  intros Hk. rewrite dom_insert_L.
  apply subseteq_union_1_L, singleton_subseteq_l, elem_of_dom. exact Hk.
Qed.

Lemma dom_insert_object (l : Scene.loc) (ob : Scene.object)
    (o : gmap Scene.loc Scene.object) :
  is_Some (o !! l) -> dom (<[l := ob]> o) = dom o.
Proof.
  intros Hl. rewrite dom_insert_L.
  apply subseteq_union_1_L, singleton_subseteq_l, elem_of_dom. exact Hl.
Qed.

(** The renderer creates no object and removes none. *)
Lemma dom_updateMatrixWorld (o : gmap Scene.loc Scene.object) :
  dom (Scene.updateMatrixWorld o) = dom o.
Proof.
  unfold Scene.updateMatrixWorld.
  destruct (o !! Scene.sphere_matrixWorld) as [m|] eqn:Hm;
    [destruct (Scene.vector3_at Scene.sphere_position o) as [p|]|].
  - rewrite (lookup_insert_ne o Scene.sphere_matrixWorld Scene.plane_matrixWorld) by done.
    destruct (o !! Scene.plane_matrixWorld) eqn:HM.
    + rewrite dom_insert_object
        by (rewrite lookup_insert_ne by done; rewrite HM; eauto).
      apply dom_insert_object. rewrite Hm. eauto.
    + apply dom_insert_object. rewrite Hm. eauto.
  - destruct (o !! Scene.plane_matrixWorld) eqn:HM; [|reflexivity].
    apply dom_insert_object. rewrite HM. eauto.
  - destruct (o !! Scene.plane_matrixWorld) eqn:HM; [|reflexivity].
    apply dom_insert_object. rewrite HM. eauto.
Qed.

Section SetupMore.

Local Open Scope R_scope.
Import Scene.

Variable heightmap_shader :
  gmap string value -> gmap loc object -> list R -> list R.
Variable simplex_noise : R -> R -> R.

Lemma set_value_None (key : string) (v : value) (u : gmap string value) :
  u !! key = None -> set_value key v u = None.
Proof. intros Hk. unfold set_value. rewrite Hk. reflexivity. Qed.

Lemma has_key_false (k : string) (u : gmap string value) :
  has_key k u = false -> u !! k = None.
Proof. unfold has_key. destruct (u !! k); [discriminate | reflexivity]. Qed.

Lemma union_miss (k : string) (u1 u2 : gmap string value) :
  u1 !! k = None -> u2 !! k = None -> (u1 ∪ u2) !! k = None.
Proof. intros H1 H2. apply lookup_union_None. split; assumption. Qed.

(** X9: the setup runs to its end exactly when the phong uniforms hold
    ['diffuse'], ['specular'], ['shininess'] and ['opacity']; with one of
    them missing, [setWater] throws on the assignment through it. *)
Theorem setup_needs_phong (e : env) :
  is_Some (setup simplex_noise e) <-> phong_ok e = true.
Proof.
  split.
  - intros [st Hst]. unfold phong_ok.
    destruct (has_key "diffuse" (phong e)) eqn:Hd;
    [destruct (has_key "specular" (phong e)) eqn:Hs;
     [destruct (has_key "shininess" (phong e)) eqn:Hn;
      [destruct (has_key "opacity" (phong e)) eqn:Ho; [reflexivity|]|]|]|];
    exfalso; revert Hst; unfold setup, setWater.
    + apply has_key_is_Some in Hd, Hs, Hn. apply has_key_false in Ho.
      rewrite set_value_spec by (apply is_Some_union_r; assumption).
      cbn [mbind option_bind].
      rewrite set_value_spec
        by (apply is_Some_insert_keep, is_Some_union_r; assumption).
      cbn [mbind option_bind].
      rewrite set_value_spec
        by (do 2 apply is_Some_insert_keep; apply is_Some_union_r; assumption).
      cbn [mbind option_bind].
      rewrite set_value_None; [discriminate|].
      rewrite !lookup_insert_ne by done. apply union_miss; [reflexivity | exact Ho].
    + apply has_key_is_Some in Hd, Hs. apply has_key_false in Hn.
      rewrite set_value_spec by (apply is_Some_union_r; assumption).
      cbn [mbind option_bind].
      rewrite set_value_spec
        by (apply is_Some_insert_keep, is_Some_union_r; assumption).
      cbn [mbind option_bind].
      rewrite set_value_None; [discriminate|].
      rewrite !lookup_insert_ne by done. apply union_miss; [reflexivity | exact Hn].
    + apply has_key_is_Some in Hd. apply has_key_false in Hs.
      rewrite set_value_spec by (apply is_Some_union_r; assumption).
      cbn [mbind option_bind].
      rewrite set_value_None; [discriminate|].
      rewrite !lookup_insert_ne by done. apply union_miss; [reflexivity | exact Hs].
    + apply has_key_false in Hd.
      rewrite set_value_None; [discriminate|].
      apply union_miss; [reflexivity | exact Hd].
  - intros Hphong. rewrite (setup_spec simplex_noise e Hphong). eauto.
Qed.

(** X11: the setup keeps every phong uniform in the water and the agent
    material.  A key that is neither one of the material's own nor assigned
    by [setWater] keeps the phong value; on the shared keys the material's
    own entry and the assigned value win. *)
Theorem setup_merges_phong (e : env) (k : string) (v : value) :
  phong_ok e = true ->
  phong e !! k = Some v ->
  exists st0,
    setup simplex_noise e = Some st0
    /\ is_Some (waterUniforms st0 !! k)
    /\ is_Some (agentUniforms st0 !! k)
    /\ (k ∉ ["opacity"; "shininess"; "specular"; "diffuse"; "heightmap"; "envMap";
             "cameraPos"; "reflectionStrength"; "transparency"; "agentPosition";
             "tf_agent_to_world"] ->
        waterUniforms st0 !! k = Some v)
    /\ (k ∉ ["heightmap"; "tf_agent_to_world"; "waterWidth"; "waterDepth";
             "water_resting_height"] ->
        agentUniforms st0 !! k = Some v)
    /\ waterUniforms st0 !! "heightmap" = Some VNull
    /\ agentUniforms st0 !! "heightmap" = Some VNull
    /\ waterUniforms st0 !! "diffuse" = Some (VColor 0x0040C0).
Proof.
  intros Hphong Hk.
  exists (after_setup simplex_noise e).
  split; [apply setup_spec; exact Hphong|].
  cbn [after_setup waterUniforms agentUniforms]. unfold setup_water, setup_agent.
  split.
  { do 4 apply is_Some_insert_keep. apply is_Some_union_r. eauto. }
  split.
  { apply is_Some_union_r. eauto. }
  split.
  { intros Hnot. rewrite !not_elem_of_cons in Hnot.
    destruct Hnot as (H1 & H2 & H3 & H4 & H5 & H6 & H7 & H8 & H9 & H10 & H11 & _).
    rewrite !lookup_insert_ne by done.
    rewrite lookup_union_r; [exact Hk|].
    rewrite !lookup_insert_ne by done. apply lookup_singleton_ne. done. }
  split.
  { intros Hnot. rewrite !not_elem_of_cons in Hnot.
    destruct Hnot as (H1 & H2 & H3 & H4 & H5 & _).
    rewrite lookup_union_r; [exact Hk|].
    rewrite !lookup_insert_ne by done. apply lookup_singleton_ne. done. }
  split.
  { rewrite !lookup_insert_ne by done. apply lookup_union_Some_l. reflexivity. }
  split.
  { apply lookup_union_Some_l. reflexivity. }
  rewrite !lookup_insert_ne by done. apply lookup_insert_eq.
Qed.

End SetupMore.

Section FrameKeys.

Local Open Scope R_scope.
Import Scene.

Variable heightmap_shader :
  gmap string value -> gmap loc object -> list R -> list R.

(** X10: a frame neither adds nor removes a uniform or an object: the key
    sets of the three uniform sets and of the store are the same after the
    frame as before. *)
Theorem frame_keeps_keys (now : R) (st : state) :
  ready st ->
  exists st',
    animate heightmap_shader now st = Some st'
    /\ dom (waterUniforms st') = dom (waterUniforms st)
    /\ dom (agentUniforms st') = dom (agentUniforms st)
    /\ dom (heightmapUniforms st') = dom (heightmapUniforms st)
    /\ dom (objects st') = dom (objects st).
Proof.
  destruct st as [lt dt ca o wu au hu g tr]. intros Hready.
  destruct (ready_objects _ _ _ _ _ _ _ _ _ Hready) as (p & cam & M & Hp & Hcam & HM).
  pose proof (animate_spec heightmap_shader now _ _ _ _ _ _ _ _ _ p cam M
                Hready Hp Hcam HM) as Hspec.
  cbv zeta in Hspec.
  eexists. split; [exact Hspec|].
  destruct Hready as [_ _ _ _ [c0 Hc0] Hcp (Hw1 & Hw2 & Hw3) (Hh1 & Hh2) (Ha1 & Ha2)].
  cbn [objects waterUniforms agentUniforms heightmapUniforms] in *.
  repeat apply conj.
  - rewrite !dom_insert_present; [reflexivity | assumption | |].
    + apply is_Some_insert_keep. assumption.
    + do 2 apply is_Some_insert_keep. assumption.
  - rewrite !dom_insert_present; [reflexivity | assumption |].
    apply is_Some_insert_keep. assumption.
  - rewrite !dom_insert_present; [reflexivity | assumption |].
    apply is_Some_insert_keep. assumption.
  - rewrite dom_updateMatrixWorld.
    rewrite dom_insert_object.
    + apply dom_insert_object. unfold vector3_at in Hp.
      destruct (o !! sphere_position); [eauto | discriminate].
    + rewrite lookup_insert_ne by done. unfold vector3_at in Hc0.
      destruct (o !! water_cameraPos); [eauto | discriminate].
Qed.

(** X12: a frame copies the camera position into the vector that
    ['cameraPos'] holds, by value: afterwards that vector has the camera's
    coordinates, the uniform still refers to its own vector and the camera's
    own position is as it was, whereas ['agentPosition'] is set to the
    sphere's position object itself. *)
Theorem camera_copied (now : R) (st : state) (cam : Vector3) :
  ready st ->
  vector3_at camera_position (objects st) = Some cam ->
  exists st',
    animate heightmap_shader now st = Some st'
    /\ vector3_at water_cameraPos (objects st') = Some cam
    /\ vector3_at camera_position (objects st') = Some cam
    /\ waterUniforms st' !! "cameraPos" = Some (VObject water_cameraPos)
    /\ water_cameraPos <> camera_position
    /\ waterUniforms st' !! "agentPosition" = Some (VObject sphere_position).
Proof.
  destruct st as [lt dt ca o wu au hu g tr]. intros Hready Hcam.
  destruct (ready_objects _ _ _ _ _ _ _ _ _ Hready) as (p & cam' & M & Hp & Hcam' & HM).
  cbn [objects] in Hcam. rewrite Hcam in Hcam'. injection Hcam' as <-.
  pose proof (animate_spec heightmap_shader now _ _ _ _ _ _ _ _ _ p cam M
                Hready Hp Hcam HM) as Hspec.
  cbv zeta in Hspec.
  eexists. split; [exact Hspec|].
  destruct Hready as [_ _ _ _ _ Hcp _ _ _].
  cbn [objects waterUniforms] in *.
  repeat apply conj.
  - rewrite updateMatrixWorld_vector3 by done. apply vector3_at_insert.
  - rewrite updateMatrixWorld_vector3 by done.
    rewrite !vector3_at_insert_ne by done. exact Hcam.
  - rewrite !lookup_insert_ne by done. exact Hcp.
  - discriminate.
  - rewrite lookup_insert_ne by done. apply lookup_insert_eq.
Qed.

End FrameKeys.

Ltac run_scene_in H :=
  cbv beta iota zeta delta
      [Scene.log Scene.set_objects Scene.set_gpu Scene.set_uniforms Scene.uniforms
       Scene.lastTimestamp Scene.deltaTime Scene.currentAngle Scene.objects
       Scene.waterUniforms Scene.agentUniforms Scene.heightmapUniforms
       Scene.gpuCompute Scene.trace] in H.

Section FrameNeeds.

Local Open Scope R_scope.
Import Scene.

Variable heightmap_shader :
  gmap string value -> gmap loc object -> list R -> list R.

Lemma assign_inv (m : material) (key : string) (x : value) (st st' : state) :
  assign m key x st = Some st' ->
  is_Some (uniforms m st !! key)
  /\ st' = log (SetUniform m key x) (set_uniforms m (<[key := x]> (uniforms m st)) st).
Proof.
  unfold assign, set_value. destruct (uniforms m st !! key) eqn:Hk.
  - cbn [mbind option_bind]. intros [= <-]. eauto.
  - discriminate.
Qed.

Lemma copy_into_inv (m : material) (key : string) (src : loc) (st st' : state) :
  copy_into m key src st = Some st' ->
  exists dst v,
    uniforms m st !! key = Some (VObject dst)
    /\ vector3_at src (objects st) = Some v
    /\ st' = log (CopyInto m key v)
               (set_objects (<[dst := OVector3 v]> (objects st)) st).
Proof.
  unfold copy_into.
  destruct (uniforms m st !! key) as [[| | | |dst|]|]; try discriminate.
  destruct (vector3_at dst (objects st)) as [v0|]; [|discriminate].
  cbn [mbind option_bind].
  destruct (vector3_at src (objects st)) as [v1|]; [|discriminate].
  cbn [mbind option_bind]. intros [= <-]. eauto.
Qed.

(** X14: a frame that runs to its end found the sphere's and the camera's
    position vectors, every uniform it assigns through and the render
    targets of the compute renderer; if one of them is missing, as before
    the setup, the frame throws. *)
Theorem frame_needs (now : R) (st : state) :
  is_Some (animate heightmap_shader now st) ->
  has_targets (gpuCompute st) = true
  /\ is_Some (vector3_at sphere_position (objects st))
  /\ is_Some (vector3_at camera_position (objects st))
  /\ (exists dst, waterUniforms st !! "cameraPos" = Some (VObject dst))
  /\ is_Some (waterUniforms st !! "heightmap")
  /\ is_Some (waterUniforms st !! "agentPosition")
  /\ is_Some (waterUniforms st !! "tf_agent_to_world")
  /\ is_Some (heightmapUniforms st !! "agentPosition")
  /\ is_Some (heightmapUniforms st !! "tf_water_to_world")
  /\ is_Some (agentUniforms st !! "heightmap")
  /\ is_Some (agentUniforms st !! "tf_agent_to_world").
Proof.
  destruct st as [lt dt ca o wu au hu g tr].
  intros [st' Hrun]. unfold animate in Hrun.
  apply bind_Some in Hrun as (s1 & Hstep & Hrun).
  apply bind_Some in Hrun as (s2 & Hrender & _).
  unfold stepAgent, tick in Hstep.
  apply bind_Some in Hstep as (p & Hp & Hs1).
  injection Hs1 as <-.
  run_scene_in Hp. run_scene_in Hrender.
  unfold render in Hrender.
  apply bind_Some in Hrender as (r0 & H0 & Hrender).
  unfold compute in H0. run_scene_in H0.
  destruct (has_targets g) eqn:Ht; [|discriminate].
  injection H0 as <-.
  apply bind_Some in Hrender as (r1 & H1 & Hrender).
  run_scene_in H1. apply assign_inv in H1 as [K1 ->]. run_scene_in K1.
  apply bind_Some in Hrender as (r2 & H2 & Hrender).
  run_scene_in H2. apply copy_into_inv in H2 as (dst & cam & K2 & Kcam & ->).
  run_scene_in K2. run_scene_in Kcam.
  apply bind_Some in Hrender as (r3 & H3 & Hrender).
  run_scene_in H3. apply assign_inv in H3 as [K3 ->]. run_scene_in K3.
  apply bind_Some in Hrender as (r4 & H4 & Hrender).
  run_scene_in H4. apply assign_inv in H4 as [K4 ->]. run_scene_in K4.
  apply bind_Some in Hrender as (r5 & H5 & Hrender).
  run_scene_in H5. apply assign_inv in H5 as [K5 ->]. run_scene_in K5.
  apply bind_Some in Hrender as (r6 & H6 & Hrender).
  run_scene_in H6. apply assign_inv in H6 as [K6 ->]. run_scene_in K6.
  apply bind_Some in Hrender as (r7 & H7 & Hrender).
  run_scene_in H7. apply assign_inv in H7 as [K7 ->]. run_scene_in K7.
  apply bind_Some in Hrender as (r8 & H8 & _).
  run_scene_in H8. apply assign_inv in H8 as [K8 _]. run_scene_in K8.
  rewrite lookup_insert_ne in K2 by done.
  rewrite vector3_at_insert_ne in Kcam by done.
  rewrite lookup_insert_ne in K3 by done.
  rewrite !lookup_insert_ne in K4 by done.
  rewrite lookup_insert_ne in K6 by done.
  rewrite lookup_insert_ne in K8 by done.
  cbn [objects waterUniforms heightmapUniforms agentUniforms gpuCompute].
  repeat apply conj; eauto.
Qed.

End FrameNeeds.

(** * The size of the view *)

Section Resize.

Local Open Scope R_scope.
Import Viewport.


End Resize.

(** * Sample runs *)

Section SampleRuns.

Local Open Scope R_scope.
Import Scene.

Lemma one_step_per_frame_witness :
  phong_ok sample_env = true
  /\ init_error sample_env = None
  /\ exists st0 st,
    setup sample_noise sample_env = Some st0
    /\ frames sample_shader [16; 33; 50] st0 = Some st
    /\ length (passes (trace st)) = length [16; 33; 50]
    /\ length (draws (trace st)) = length [16; 33; 50]
    /\ length (trace st) = (length (trace st0) + 16 * length [16; 33; 50])%nat.
Proof.
  split; [exact sample_phong_ok|]. split; [reflexivity|].
  exact (one_step_per_frame sample_shader sample_noise sample_env [16; 33; 50]
           sample_phong_ok eq_refl).
Defined.

Lemma world_matrices_witness :
  phong_ok sample_env = true
  /\ init_error sample_env = None
  /\ exists st0 pre0 st p pre,
    setup sample_noise sample_env = Some st0
    /\ stepAgent (deltaTime (tick 50 st0)) (tick 50 st0) = Some pre0
    /\ objects pre0 !! plane_matrixWorld = Some (OMatrix4 identity4)
    /\ objects pre0 !! sphere_matrixWorld = Some (OMatrix4 identity4)
    /\ frames sample_shader ([16; 33] ++ [50]) st0 = Some st
    /\ vector3_at sphere_position (objects st) = Some p
    /\ objects st !! plane_matrixWorld = Some (OMatrix4 plane_matrix)
    /\ objects st !! sphere_matrixWorld = Some (OMatrix4 (sphere_matrix p))
    /\ sphere_matrix p = M4 1 0 0 (vx p)  0 1 0 (vy p)  0 0 1 (vz p)  0 0 0 1
    /\ stepAgent (deltaTime (tick 66 st)) (tick 66 st) = Some pre
    /\ objects pre !! plane_matrixWorld = Some (OMatrix4 plane_matrix)
    /\ determinant identity4 <> 0
    /\ determinant plane_matrix <> 0
    /\ determinant (sphere_matrix p) <> 0.
Proof.
  split; [exact sample_phong_ok|]. split; [reflexivity|].
  exact (world_matrices sample_shader sample_noise sample_env [16; 33] 50 66
           sample_phong_ok eq_refl).
Defined.

Lemma failed_init_frame_throws_witness :
  phong_ok failing_env = true
  /\ init_error failing_env = Some "No OES_texture_float support"
  /\ exists st pre,
    setup sample_noise failing_env = Some st
    /\ has_targets (gpuCompute st) = false
    /\ stepAgent (deltaTime (tick 16 st)) (tick 16 st) = Some pre
    /\ compute sample_shader pre = None
    /\ render sample_shader pre = None
    /\ animate sample_shader 16 st = None
    /\ init sample_shader sample_noise failing_env 16 = None.
Proof.
  split; [reflexivity|]. split; [reflexivity|].
  exact (failed_init_frame_throws sample_shader sample_noise failing_env
           "No OES_texture_float support" 16 eq_refl eq_refl).
Defined.

Lemma setup_merges_phong_witness :
  phong_ok sample_env = true
  /\ phong sample_env !! "emissive" = Some (VColor 0)
  /\ exists st0,
    setup sample_noise sample_env = Some st0
    /\ is_Some (waterUniforms st0 !! "emissive")
    /\ is_Some (agentUniforms st0 !! "emissive")
    /\ ("emissive" ∉ ["opacity"; "shininess"; "specular"; "diffuse"; "heightmap";
                      "envMap"; "cameraPos"; "reflectionStrength"; "transparency";
                      "agentPosition"; "tf_agent_to_world"] ->
        waterUniforms st0 !! "emissive" = Some (VColor 0))
    /\ ("emissive" ∉ ["heightmap"; "tf_agent_to_world"; "waterWidth"; "waterDepth";
                      "water_resting_height"] ->
        agentUniforms st0 !! "emissive" = Some (VColor 0))
    /\ waterUniforms st0 !! "heightmap" = Some VNull
    /\ agentUniforms st0 !! "heightmap" = Some VNull
    /\ waterUniforms st0 !! "diffuse" = Some (VColor 0x0040C0).
Proof.
  split; [exact sample_phong_ok|]. split; [reflexivity|].
  apply (setup_merges_phong sample_noise sample_env "emissive" (VColor 0)).
  - exact sample_phong_ok.
  - reflexivity.
Defined.

Lemma frame_keeps_keys_witness :
  ready sample_state
  /\ exists st',
    animate sample_shader 16 sample_state = Some st'
    /\ dom (waterUniforms st') = dom (waterUniforms sample_state)
    /\ dom (agentUniforms st') = dom (agentUniforms sample_state)
    /\ dom (heightmapUniforms st') = dom (heightmapUniforms sample_state)
    /\ dom (objects st') = dom (objects sample_state).
Proof.
  split; [exact sample_ready|].
  exact (frame_keeps_keys sample_shader 16 sample_state sample_ready).
Defined.

Lemma camera_copied_witness :
  ready sample_state
  /\ vector3_at camera_position (objects sample_state) = Some (V3 350 400 (-500))
  /\ exists st',
    animate sample_shader 16 sample_state = Some st'
    /\ vector3_at water_cameraPos (objects st') = Some (V3 350 400 (-500))
    /\ vector3_at camera_position (objects st') = Some (V3 350 400 (-500))
    /\ waterUniforms st' !! "cameraPos" = Some (VObject water_cameraPos)
    /\ water_cameraPos <> camera_position
    /\ waterUniforms st' !! "agentPosition" = Some (VObject sphere_position).
Proof.
  split; [exact sample_ready|]. split; [reflexivity|].
  apply (camera_copied sample_shader 16 sample_state (V3 350 400 (-500))).
  - exact sample_ready.
  - reflexivity.
Defined.

Lemma sample_frame_runs : is_Some (animate sample_shader 16 sample_state).
Proof.
  eexists. unfold sample_state.
  apply (animate_spec sample_shader 16 _ _ _ _ _ _ _ _ _
           (V3 0 0 0) (V3 350 400 (-500)) (OMatrix4 identity4) sample_ready);
    reflexivity.
Qed.

Lemma frame_needs_witness :
  is_Some (animate sample_shader 16 sample_state)
  /\ has_targets (gpuCompute sample_state) = true
  /\ is_Some (vector3_at sphere_position (objects sample_state))
  /\ is_Some (vector3_at camera_position (objects sample_state))
  /\ (exists dst, waterUniforms sample_state !! "cameraPos" = Some (VObject dst))
  /\ is_Some (waterUniforms sample_state !! "heightmap")
  /\ is_Some (waterUniforms sample_state !! "agentPosition")
  /\ is_Some (waterUniforms sample_state !! "tf_agent_to_world")
  /\ is_Some (heightmapUniforms sample_state !! "agentPosition")
  /\ is_Some (heightmapUniforms sample_state !! "tf_water_to_world")
  /\ is_Some (agentUniforms sample_state !! "heightmap")
  /\ is_Some (agentUniforms sample_state !! "tf_agent_to_world").
Proof.
  split; [exact sample_frame_runs|].
  exact (frame_needs sample_shader 16 sample_state sample_frame_runs).
Defined.

End SampleRuns.
